(** * VaultGuard: the [PasswordManager] component

    A shallow embedding of [src/components/PasswordManager.tsx]: the
    component state held by its [useState] hooks, the event handlers
    ([fetchPasswords], [generatePassword], [handleSubmit], [deletePassword],
    [copyToClipboard], [togglePasswordVisibility], [handleSignOut] and the
    inline handlers of the markup) and the collaborators they talk to (the
    Supabase client, the toast sink, the clipboard and [Math.random]).

    Handlers are written in a small program monad whose constructors are the
    effects of the source: a state setter, a toast or a clipboard write, a
    draw of [Math.random], an [await] of a remote request, and a call of an
    [async] function whose promise is dropped.  An interpreter runs them
    against a world made of the component state, the toasts shown, the
    requests sent, the remote store and the number of random draws made so
    far.

    Numbers are binary64 floating-point numbers, with the multiplication of
    the standard library's specification of IEEE 754 ([SFmul], which is what
    the library states of the machine's own product); objects used as maps
    are read through their prototype. *)

From Stdlib Require Import QArith Qround SpecFloat.
From stdpp Require Import gmap strings list.

Local Open Scope string_scope.
Local Open Scope list_scope.
Local Open Scope nat_scope.

(** ** Data model *)

(** [interface Password]; [notes?: string] is absent ([None]) or a string. *)
Module Password.
Record t : Type := mk
  { id : string;
    website : string;
    username : string;
    password : string;
    notes : option string;
    created_at : string }.
End Password.

(** The object held by [formData]. *)
Module FormData.
Record t : Type := mk
  { website : string;
    username : string;
    password : string;
    notes : string }.

(** [{ ...f, website: v }] and its three siblings. *)
Definition with_website (f : t) (v : string) : t :=
  {| website := v; username := username f;
     password := password f; notes := notes f |}.

Definition with_username (f : t) (v : string) : t :=
  {| website := website f; username := v;
     password := password f; notes := notes f |}.

Definition with_password (f : t) (v : string) : t :=
  {| website := website f; username := username f;
     password := v; notes := notes f |}.

Definition with_notes (f : t) (v : string) : t :=
  {| website := website f; username := username f;
     password := password f; notes := v |}.

(** [{ website: "", username: "", password: "", notes: "" }] *)
Definition empty : t :=
  {| website := ""; username := ""; password := ""; notes := "" |}.
End FormData.

(** The argument of [toast]. *)
Record Toast : Type := mkToast
  { title : string;
    description : option string;
    variant : option string }.

(** The state of the component: one field per [useState].  [showPasswords]
    is a plain object used as a map from record ids to booleans: the map
    holds its own properties, and [get] below reads it as JavaScript does. *)
Record State : Type := mkState
  { passwords : list Password.t;
    loading : bool;
    showPasswords : gmap string bool;
    isAddDialogOpen : bool;
    editingPassword : option Password.t;
    formData : FormData.t }.

(** The state at mount: the initial values given to [useState]. *)
Definition initialState : State :=
  {| passwords := [];
     loading := true;
     showPasswords := ∅;
     isAddDialogOpen := false;
     editingPassword := None;
     formData := FormData.empty |}.

(** ** The remote client *)

(** The error object of a response; the component only tests it for
    presence. *)
Record PostgrestError : Type := mkError { message : string }.

(** What [await supabase.from(..)...] resolves to: [{ data, error }]. *)
Record Response : Type := mkResponse
  { data : option (list Password.t);
    error : option PostgrestError }.

(** The requests the component makes: the four query shapes it builds on a
    table, and [supabase.auth.signOut()]. *)
Inductive Request : Type :=
| QSelect (table columns order_by : string) (ascending : bool)
| QUpdate (table : string) (values : FormData.t) (column value : string)
| QInsert (table : string) (rows : list FormData.t)
| QDelete (table : string) (column value : string)
| AuthSignOut.

(** ** JavaScript operators used by the handlers *)

(** The names every plain object inherits from [Object.prototype]. *)
Definition object_prototype_keys : list string :=
  ["constructor"; "hasOwnProperty"; "isPrototypeOf"; "propertyIsEnumerable";
   "toLocaleString"; "toString"; "valueOf"; "__defineGetter__";
   "__defineSetter__"; "__lookupGetter__"; "__lookupSetter__"; "__proto__"].

Definition inherited (key : string) : bool :=
  bool_decide (key ∈ object_prototype_keys).

(** What [o[key]] can be for [o : Record<string, boolean>] built from [{}]
    by spreads and boolean entries: [undefined], an own boolean, or the
    function or object inherited under that name. *)
Inductive Value : Type :=
| Undefined
| Boolean (b : bool)
| Inherited.

(** [o[key]]: the own property if there is one, else the inherited one, else
    [undefined]. *)
Definition get (o : gmap string bool) (key : string) : Value :=
  match o !! key with
  | Some b => Boolean b
  | None => if inherited key then Inherited else Undefined
  end.

(** Truthiness: [undefined] and [false] are falsy, functions and objects are
    truthy. *)
Definition truthy (v : Value) : bool :=
  match v with
  | Undefined => false
  | Boolean b => b
  | Inherited => true
  end.

(** [data || []] *)
Definition or_nil {A} (v : option (list A)) : list A := default [] v.

(** [s || ""] for [s : string | undefined]: the empty string is falsy too. *)
Definition or_empty (v : option string) : string :=
  match v with
  | Some s => if String.eqb s "" then "" else s
  | None => ""
  end.

(** [s.charAt(i)]: the one-character string at index [i], or [""] when [i]
    is out of range. *)
Definition charAt (s : string) (i : Z) : string :=
  if (i <? 0)%Z then ""
  else match String.get (Z.to_nat i) s with
       | Some c => String c ""
       | None => ""
       end.

(** The Number [n]. *)
Definition number_of_nat (n : nat) : spec_float :=
  binary_normalize 53 1024 (Z.of_nat n) 0 false.

(** [Math.floor(x)] as the position [charAt] makes of it: the integer part
    of a finite number, [0] for [NaN], and a position outside every string
    for the infinities. *)
Definition floor_index (x : spec_float) : Z :=
  match x with
  | S754_zero _ => 0
  | S754_nan => 0
  | S754_infinity _ => -1
  | S754_finite s m e =>
      if (0 <=? e)%Z then (cond_Zopp s (Z.pos m) * 2 ^ e)%Z
      else (cond_Zopp s (Z.pos m) / 2 ^ (- e))%Z
  end.

(** [Math.floor(r * n)]: the product is the binary64 product, rounded to
    nearest, ties to even. *)
Definition floor_scaled (r : spec_float) (n : nat) : Z :=
  floor_index (SFmul 53 1024 r (number_of_nat n)).

(** The real number a finite binary64 number denotes. *)
Definition draw_value (r : spec_float) : Q :=
  match r with
  | S754_finite s m e =>
      if (0 <=? e)%Z then inject_Z (cond_Zopp s (Z.pos m) * 2 ^ e)
      else cond_Zopp s (Z.pos m) # Z.to_pos (2 ^ (- e))
  | _ => 0%Q
  end.

Definition finite (r : spec_float) : bool :=
  match r with
  | S754_zero _ | S754_finite _ _ _ => true
  | S754_infinity _ | S754_nan => false
  end.

(** What [Math.random()] returns: a binary64 number in [[0, 1)]. *)
Definition unit_double (r : spec_float) : Prop :=
  finite r = true
  ∧ valid_binary 53 1024 r = true
  ∧ (0 <= draw_value r < 1)%Q.

Definition unit_doubleb (r : spec_float) : bool :=
  finite r && valid_binary 53 1024 r
  && Qle_bool 0 (draw_value r) && negb (Qle_bool 1 (draw_value r)).

(** The number of low bits the rounding of [SFmul] drops from a mantissa
    [N] at exponent [ex]. *)
Definition shift (N ex : Z) : Z := (fexp 53 1024 (Zdigits2 N + ex) - ex)%Z.

(** ** Programs *)

(** The synchronous effects: the six state setters, [toast],
    [navigator.clipboard.writeText] and the [onSignOut] prop.
    [setShowPasswords] is only ever called with an updater function. *)
Inductive Action : Type :=
| setPasswords (v : list Password.t)
| setLoading (v : bool)
| setShowPasswords (f : gmap string bool → gmap string bool)
| setIsAddDialogOpen (v : bool)
| setEditingPassword (v : option Password.t)
| setFormData (v : FormData.t)
| toast (t : Toast)
| writeText (text : string)
| onSignOut.

(** A handler body.  [Await q k] sends [q] and suspends until its response;
    [Spawn p k] calls the async function [p] without awaiting it and goes on
    with [k]. *)
Inductive Prog (A : Type) : Type :=
| Ret (a : A)
| Act (a : Action) (k : Prog A)
| Rand (k : spec_float → Prog A)
| Await (q : Request) (k : Response → Prog A)
| Spawn (p : Prog unit) (k : Prog A).

Arguments Ret {A} a.
Arguments Act {A} a k.
Arguments Rand {A} k.
Arguments Await {A} q k.
Arguments Spawn {A} p k.

Fixpoint bind {A B} (m : Prog A) (f : A → Prog B) : Prog B :=
  match m with
  | Ret a => f a
  | Act a k => Act a (bind k f)
  | Rand k => Rand (λ r, bind (k r) f)
  | Await q k => Await q (λ r, bind (k r) f)
  | Spawn p k => Spawn p (bind k f)
  end.

#[global] Instance Prog_ret : MRet Prog := @Ret.
#[global] Instance Prog_bind : MBind Prog := λ A B f m, bind m f.

Definition act (a : Action) : Prog unit := Act a (Ret tt).
Definition random : Prog spec_float := Rand Ret.
Definition await (q : Request) : Prog Response := Await q Ret.
Definition call (p : Prog unit) : Prog unit := Spawn p (Ret tt).

(** ** The handlers *)

Definition chars : string :=
  "ABCDEFGHIJKLMNOPQRSTUVWXYZabcdefghijklmnopqrstuvwxyz0123456789!@#$%^&*".

(** The characters of [chars], in order. *)
Definition alphabet : list Ascii.ascii := String.list_ascii_of_string chars.

(** The generator draws from exactly [n] distinct characters. *)
Definition alphabet_size (n : nat) : Prop :=
  ∃ l : list Ascii.ascii,
    length l = n ∧ NoDup l ∧ ∀ c, c ∈ l ↔ c ∈ alphabet.

Definition fetchPasswords : Prog unit :=
  r ← await (QSelect "passwords" "*" "created_at" false);
  match error r with
  | Some _ =>
      act (toast {| title := "Error";
                    description := Some "Failed to load passwords";
                    variant := Some "destructive" |})
  | None => act (setPasswords (or_nil (data r)))
  end;;
  act (setLoading false).

(** The [for] loop of [generatePassword]: [n] iterations left, [result] so
    far. *)
Fixpoint generate_loop (n : nat) (result : string) : Prog string :=
  match n with
  | O => mret result
  | S n' =>
      r ← random;
      generate_loop n'
        (result +:+ charAt chars (floor_scaled r (String.length chars)))
  end.

(** Handlers that read [formData] or [editingPassword] read the values of
    the render they were created in: the argument [s]. *)
Definition generatePassword (s : State) : Prog unit :=
  result ← generate_loop 16 "";
  act (setFormData (FormData.with_password (formData s) result)).

(** [e.preventDefault()] only concerns the DOM event and is left out. *)
Definition handleSubmit (s : State) : Prog unit :=
  match editingPassword s with
  | Some editing =>
      r ← await (QUpdate "passwords" (formData s) "id" (Password.id editing));
      match error r with
      | Some _ =>
          act (toast {| title := "Error";
                        description := Some "Failed to update password";
                        variant := Some "destructive" |})
      | None =>
          act (toast {| title := "Password updated successfully";
                        description := None; variant := None |});;
          call fetchPasswords;;
          act (setEditingPassword None)
      end
  | None =>
      r ← await (QInsert "passwords" [formData s]);
      match error r with
      | Some _ =>
          act (toast {| title := "Error";
                        description := Some "Failed to add password";
                        variant := Some "destructive" |})
      | None =>
          act (toast {| title := "Password added successfully";
                        description := None; variant := None |});;
          call fetchPasswords;;
          act (setIsAddDialogOpen false)
      end
  end;;
  act (setFormData FormData.empty).

Definition deletePassword (id : string) : Prog unit :=
  r ← await (QDelete "passwords" "id" id);
  match error r with
  | Some _ =>
      act (toast {| title := "Error";
                    description := Some "Failed to delete password";
                    variant := Some "destructive" |})
  | None =>
      act (toast {| title := "Password deleted";
                    description := None; variant := None |});;
      call fetchPasswords
  end.

(** [prev => ({ ...prev, [id]: !prev[id] })] *)
Definition toggle (id : string) (prev : gmap string bool) : gmap string bool :=
  <[id := negb (truthy (get prev id))]> prev.

Definition togglePasswordVisibility (id : string) : Prog unit :=
  act (setShowPasswords (toggle id)).

Definition copyToClipboard (text type : string) : Prog unit :=
  act (writeText text);;
  act (toast {| title := type +:+ " copied to clipboard";
                description := None; variant := None |}).

Definition handleSignOut : Prog unit :=
  _ ← await AuthSignOut;
  act onSignOut.

(** The effect run at mount: [useEffect(() => { fetchPasswords(); }, [])]. *)
Definition mountEffect : Prog unit := call fetchPasswords.

(** The [onClick] of the edit button of the card of [password]. *)
Definition editClick (password : Password.t) : Prog unit :=
  act (setEditingPassword (Some password));;
  act (setFormData
         {| FormData.website := Password.website password;
            FormData.username := Password.username password;
            FormData.password := Password.password password;
            FormData.notes := or_empty (Password.notes password) |}).

(** The condition [showPasswords[password.id] ? ... : ...] of the render. *)
Definition revealed (s : State) (id : string) : bool :=
  truthy (get (showPasswords s) id).

(** ** Worlds and the interpreter *)

Definition set_passwords (v : list Password.t) (s : State) : State :=
  {| passwords := v; loading := loading s; showPasswords := showPasswords s;
     isAddDialogOpen := isAddDialogOpen s;
     editingPassword := editingPassword s; formData := formData s |}.

Definition set_loading (v : bool) (s : State) : State :=
  {| passwords := passwords s; loading := v; showPasswords := showPasswords s;
     isAddDialogOpen := isAddDialogOpen s;
     editingPassword := editingPassword s; formData := formData s |}.

Definition set_showPasswords (v : gmap string bool) (s : State) : State :=
  {| passwords := passwords s; loading := loading s; showPasswords := v;
     isAddDialogOpen := isAddDialogOpen s;
     editingPassword := editingPassword s; formData := formData s |}.

Definition set_isAddDialogOpen (v : bool) (s : State) : State :=
  {| passwords := passwords s; loading := loading s;
     showPasswords := showPasswords s; isAddDialogOpen := v;
     editingPassword := editingPassword s; formData := formData s |}.

Definition set_editingPassword (v : option Password.t) (s : State) : State :=
  {| passwords := passwords s; loading := loading s;
     showPasswords := showPasswords s;
     isAddDialogOpen := isAddDialogOpen s;
     editingPassword := v; formData := formData s |}.

Definition set_formData (v : FormData.t) (s : State) : State :=
  {| passwords := passwords s; loading := loading s;
     showPasswords := showPasswords s;
     isAddDialogOpen := isAddDialogOpen s;
     editingPassword := editingPassword s; formData := v |}.

(** What lies outside the component state: the toasts shown (oldest first),
    the last text written to the clipboard, and whether [onSignOut] was
    called. *)
Record Outside : Type := mkOutside
  { toasts : list Toast;
    clipboard : option string;
    signedOut : bool }.

(** What a run can observe and change: the component state, its
    surroundings, the requests sent (oldest first), the remote store and the
    number of values [Math.random] has returned. *)
Record World (R : Type) : Type := mkWorld
  { st : State;
    outside : Outside;
    sent : list Request;
    remote : R;
    draws : nat }.

Arguments mkWorld {R} st outside sent remote draws.
Arguments st {R} w.
Arguments outside {R} w.
Arguments sent {R} w.
Arguments remote {R} w.
Arguments draws {R} w.

Definition on_state {R} (f : State → State) (w : World R) : World R :=
  mkWorld (f (st w)) (outside w) (sent w) (remote w) (draws w).

Definition on_outside {R} (f : Outside → Outside) (w : World R) : World R :=
  mkWorld (st w) (f (outside w)) (sent w) (remote w) (draws w).

(** A setter called with a value stores it; one called with an updater
    applies it to the pending state. *)
Definition perform {R} (a : Action) (w : World R) : World R :=
  match a with
  | setPasswords v => on_state (set_passwords v) w
  | setLoading v => on_state (set_loading v) w
  | setShowPasswords f =>
      on_state (λ s, set_showPasswords (f (showPasswords s)) s) w
  | setIsAddDialogOpen v => on_state (set_isAddDialogOpen v) w
  | setEditingPassword v => on_state (set_editingPassword v) w
  | setFormData v => on_state (set_formData v) w
  | toast t =>
      on_outside
        (λ o, mkOutside (toasts o ++ [t]) (clipboard o) (signedOut o)) w
  | writeText text =>
      on_outside (λ o, mkOutside (toasts o) (Some text) (signedOut o)) w
  | onSignOut =>
      on_outside (λ o, mkOutside (toasts o) (clipboard o) true) w
  end.

(** How a synchronous stretch of a program ends. *)
Inductive Outcome (A : Type) : Type :=
| Finished (a : A)
| Suspended (k : Prog A).

Arguments Finished {A} a.
Arguments Suspended {A} k.

Definition pending (o : Outcome unit) : list (Prog unit) :=
  match o with
  | Finished _ => []
  | Suspended k => [k]
  end.

Section Interpreter.

(** The remote store answers a request and moves to a new state; the
    [n]-th call of [Math.random] returns [rand n]. *)
Context {R : Type}.
Variable serve : Request → R → Response * R.
Variable rand : nat → spec_float.

(** Runs [p] up to its end or its first [await].  The remote answers a
    request when it is sent; the program that sent it resumes in a later
    turn.  The result holds the world reached, the continuations of the async
    calls that [p] made and dropped (each holds the response it waits for),
    and how [p] itself stopped. *)
Fixpoint exec {A} (p : Prog A) (w : World R)
  : World R * list (Prog unit) * Outcome A :=
  match p with
  | Ret a => (w, [], Finished a)
  | Act a k => exec k (perform a w)
  | Rand k =>
      exec (k (rand (draws w)))
        (mkWorld (st w) (outside w) (sent w) (remote w) (S (draws w)))
  | Await q k =>
      let '(resp, r') := serve q (remote w) in
      (mkWorld (st w) (outside w) (sent w ++ [q]) r' (draws w), [],
       Suspended (k resp))
  | Spawn p k =>
      let '(w1, q1, o1) := exec p w in
      let '(w2, q2, o2) := exec k w1 in
      (w2, q1 ++ pending o1 ++ q2, o2)
  end.

(** One turn of the event loop on a task. *)
Definition turn (p : Prog unit) (w : World R) : World R * list (Prog unit) :=
  let '(w', q, o) := exec p w in (w', q ++ pending o).

(** Resumes suspended tasks, oldest first, until none is left. *)
Fixpoint settle (fuel : nat) (queue : list (Prog unit)) (w : World R)
  : option (World R) :=
  match queue with
  | [] => Some w
  | p :: rest =>
      match fuel with
      | O => None
      | S fuel' =>
          let '(w', q) := turn p w in settle fuel' (rest ++ q) w'
      end
  end.

(** An event: the handler of the current render runs, and the world is
    observed once every task it started has finished. *)
Definition dispatch (fuel : nat) (handler : State → Prog unit) (w : World R)
  : option (World R) :=
  settle fuel [handler (st w)] w.

(** The world at the moment the handler's own promise settles: tasks it
    spawned may still be waiting. *)
Fixpoint finish (fuel : nat) (p : Prog unit) (w : World R)
  : option (World R * list (Prog unit)) :=
  match exec p w with
  | (w', q, Finished _) => Some (w', q)
  | (w', q, Suspended k) =>
      match fuel with
      | O => None
      | S fuel' =>
          match finish fuel' k w' with
          | Some (w'', q') => Some (w'', q ++ q')
          | None => None
          end
      end
  end.

End Interpreter.

(** A remote store that replays a script of responses and fails every
    request once the script is exhausted. *)
Definition scripted (q : Request) (script : list Response)
  : Response * list Response :=
  match script with
  | r :: rest => (r, rest)
  | [] => ({| data := None; error := Some (mkError "no response") |}, [])
  end.

(** ** Events *)

(** The events the markup wires to handlers, named after the element and
    prop that receive them. *)
Inductive Event : Type :=
| EvMount
| EvAddDialogOpenChange (open : bool)
| EvWebsiteChange (value : string)
| EvUsernameChange (value : string)
| EvPasswordChange (value : string)
| EvNotesChange (value : string)
| EvGenerate
| EvSubmit
| EvSignOut
| EvEdit (password : Password.t)
| EvDelete (password : Password.t)
| EvCopyUsername (password : Password.t)
| EvCopyPassword (password : Password.t)
| EvToggle (password : Password.t)
| EvEditDialogOpenChange
| EvCancel.

Definition handler (e : Event) (s : State) : Prog unit :=
  match e with
  | EvMount => mountEffect
  | EvAddDialogOpenChange open => act (setIsAddDialogOpen open)
  | EvWebsiteChange v =>
      act (setFormData (FormData.with_website (formData s) v))
  | EvUsernameChange v =>
      act (setFormData (FormData.with_username (formData s) v))
  | EvPasswordChange v =>
      act (setFormData (FormData.with_password (formData s) v))
  | EvNotesChange v =>
      act (setFormData (FormData.with_notes (formData s) v))
  | EvGenerate => generatePassword s
  | EvSubmit => handleSubmit s
  | EvSignOut => handleSignOut
  | EvEdit password => editClick password
  | EvDelete password => deletePassword (Password.id password)
  | EvCopyUsername password =>
      copyToClipboard (Password.username password) "Username"
  | EvCopyPassword password =>
      copyToClipboard (Password.password password) "Password"
  | EvToggle password => togglePasswordVisibility (Password.id password)
  | EvEditDialogOpenChange => act (setEditingPassword None)
  | EvCancel => act (setEditingPassword None)
  end.

(** [e] is a click on the visibility button of a record whose id is [id]. *)
Definition toggles (id : string) (e : Event) : Prop :=
  match e with
  | EvToggle password => Password.id password = id
  | _ => False
  end.

Section Events.

Context {R : Type}.
Variable serve : Request → R → Response * R.
Variable rand : nat → spec_float.

(** A session: each event is handled to completion before the next. *)
Fixpoint run_events (fuel : nat) (es : list Event) (w : World R)
  : option (World R) :=
  match es with
  | [] => Some w
  | e :: es' =>
      match dispatch serve rand fuel (handler e) w with
      | Some w' => run_events fuel es' w'
      | None => None
      end
  end.

(** The value of [result] after [n] iterations of the loop of
    [generatePassword] started with [acc], when [Math.random] has been
    called [from] times before. *)
Fixpoint picks (from n : nat) (acc : string) : string :=
  match n with
  | O => acc
  | S n' =>
      picks (S from) n'
        (acc +:+ charAt chars
                   (floor_scaled (rand from) (String.length chars)))
  end.

(** A failed update leaves the whole component state as it was, form buffer
    included. *)
Definition update_failure_keeps_state (fuel : nat) (w : World R) : Prop :=
  ∀ editing e w',
    editingPassword (st w) = Some editing →
    error (serve (QUpdate "passwords" (formData (st w)) "id"
                    (Password.id editing)) (remote w)).1 = Some e →
    dispatch serve rand fuel handleSubmit w = Some w' →
    st w' = st w.

End Events.

(** The world of a freshly mounted component in front of [r]. *)
Definition mounted {R} (r : R) : World R :=
  mkWorld initialState (mkOutside [] None false) [] r 0.

(** ** Sample data *)

Definition sample_password : Password.t :=
  {| Password.id := "7f3a";
     Password.website := "example.com";
     Password.username := "a@b.com";
     Password.password := "x";
     Password.notes := None;
     Password.created_at := "2024-01-01T00:00:00Z" |}.

(** A record whose id is the name of an inherited property. *)
Definition constructor_record : Password.t :=
  {| Password.id := "constructor";
     Password.website := "bank.example";
     Password.username := "me";
     Password.password := "s3cret";
     Password.notes := None;
     Password.created_at := "2024-02-02T00:00:00Z" |}.

Definition sample_form : FormData.t :=
  {| FormData.website := "example.com";
     FormData.username := "a@b.com";
     FormData.password := "hunter2";
     FormData.notes := "work" |}.

(** Sixteen binary64 draws, given by their numerators over [2^52], used in
    turn. *)
Definition sample_draws : list spec_float :=
  (λ k, binary_normalize 53 1024 k (-52) false) <$>
  [2573485501354569; 579034237804778; 4268803746083897; 1778125698370872;
   217461284906065; 3698688707473204; 423924163645484; 2624643200305657;
   4096939487986806; 966915281866486; 387071203692761; 1883280597280603;
   1083848182074256; 2481692622780378; 266208191269415;
   2546579855414448]%Z.

Definition sample_rand (n : nat) : spec_float :=
  default (S754_zero false) (sample_draws !! (n mod 16)).

(** A draw near the middle of the interval of index [k]. *)
Definition reach (k : Z) : spec_float :=
  binary_normalize 53 1024 ((2 * k + 1) * 2 ^ 53 / 140) (-53) false.

Definition failure : Response :=
  {| data := None; error := Some (mkError "permission denied") |}.

Definition success (rows : option (list Password.t)) : Response :=
  {| data := rows; error := None |}.

(** A component showing [sample_password], with [sample_form] typed in, in
    front of a scripted remote. *)
Definition sample_world (editing : option Password.t) (script : list Response)
  : World (list Response) :=
  mkWorld
    {| passwords := [sample_password];
       loading := false;
       showPasswords := ∅;
       isAddDialogOpen := true;
       editingPassword := editing;
       formData := sample_form |}
    (mkOutside [] None false) [] script 0.

(** ** What the markup shows *)

(** The placeholder shown in place of a hidden secret: eight bullets. *)
Definition mask : string := "••••••••".

(** The data one card of the grid displays: its [key], the title and
    description of its header, the secret line and the notes line. *)
Record Card : Type := mkCard
  { card_key : string;
    card_title : string;
    card_description : string;
    card_secret : string;
    card_notes : option string }.

(** The card of [password]: the secret is
    [showPasswords[password.id] ? password.password : mask], and the notes
    line is rendered under [password.notes && ...]. *)
Definition card (s : State) (password : Password.t) : Card :=
  {| card_key := Password.id password;
     card_title := Password.website password;
     card_description := Password.username password;
     card_secret :=
       if revealed s (Password.id password)
       then Password.password password else mask;
     card_notes :=
       match Password.notes password with
       | Some n => if String.eqb n "" then None else Some n
       | None => None
       end |}.

(** The grid: one placeholder card under [passwords.length === 0], one card
    per record otherwise. *)
Inductive Body : Type :=
| EmptyCard
| CardGrid (cards : list Card).

(** What the component returns: the loading line, or the vault with its add
    dialog ([open={isAddDialogOpen}]), its grid, its edit dialog (rendered
    under [editingPassword && ...]) and the values bound to the inputs of
    both forms. *)
Inductive Screen : Type :=
| LoadingScreen
| VaultScreen (add_dialog_open : bool) (body : Body)
    (edit_dialog_open : bool) (inputs : FormData.t).

Definition render (s : State) : Screen :=
  if loading s then LoadingScreen
  else
    VaultScreen (isAddDialogOpen s)
      (match passwords s with
       | [] => EmptyCard
       | _ => CardGrid (card s <$> passwords s)
       end)
      (match editingPassword s with Some _ => true | None => false end)
      (formData s).

(** The request of [fetchPasswords]. *)
Definition list_request : Request :=
  QSelect "passwords" "*" "created_at" false.

(** [q] writes to the table. *)
Definition is_mutation (q : Request) : Prop :=
  match q with
  | QUpdate _ _ _ _ | QInsert _ _ | QDelete _ _ _ => True
  | QSelect _ _ _ _ | AuthSignOut => False
  end.

(** The form a record is edited with: what the edit button puts in
    [formData]. *)
Definition form_of (password : Password.t) : FormData.t :=
  {| FormData.website := Password.website password;
     FormData.username := Password.username password;
     FormData.password := Password.password password;
     FormData.notes := or_empty (Password.notes password) |}.

(** * Properties *)

(** ** Numbers and strings *)

(** ** Binary64 products *)

Section Binary64.

Local Open Scope Z_scope.

(** The rounding of [SFmul] is [binary_round_aux]: it drops [shift N ex] low
    bits of the exact product [N * 2^ex] by repeated halving, remembers the
    last bit dropped, rounds to nearest with ties to even, and normalises
    again.  The lemmas below follow these steps for a non-negative [N]. *)

Lemma digits2_pos_size p : digits2_pos p = Pos.size p.
Proof. induction p; cbn; congruence. Qed.

Lemma Zdigits2_bounds N :
  0 < N → 2 ^ (Zdigits2 N - 1) <= N < 2 ^ Zdigits2 N.
Proof.
  destruct N as [|p|p]; try lia. intros _. cbn [Zdigits2].
  rewrite digits2_pos_size.
  pose proof (Pos.size_gt p) as Hgt. pose proof (Pos.size_le p) as Hle.
  split.
  - assert (H : (2 ^ Z.pos (Pos.size p) <= 2 * Z.pos p)).
    { rewrite <- Pos2Z.inj_pow. lia. }
    replace (Z.pos (Pos.size p)) with (Z.succ (Z.pos (Pos.size p) - 1)) in H
      by lia.
    rewrite Z.pow_succ_r in H by lia. lia.
  - rewrite <- Pos2Z.inj_pow. lia.
Qed.

(** One halving keeps the quotient and records the bit it drops. *)
Lemma shr_1_spec m r s :
  0 <= m →
  shr_1 {| shr_m := m; shr_r := r; shr_s := s |} =
  {| shr_m := m / 2; shr_r := Z.odd m; shr_s := orb r s |}.
Proof.
  intros Hm. destruct m as [|p|p]; [reflexivity | | lia].
  destruct p as [p|p|]; cbn [shr_1 Z.odd]; f_equal.
  - rewrite Pos2Z.inj_xI, (Z.mul_comm 2), Z.div_add_l by lia. reflexivity.
  - rewrite Pos2Z.inj_xO, (Z.mul_comm 2), Z.div_mul by lia. reflexivity.
Qed.

Lemma iter_pos_nat {A} (f : A → A) p x :
  SpecFloat.iter_pos f p x = @Nat.iter (Pos.to_nat p) A f x.
Proof.
  revert x. induction p as [p IH|p IH|]; intros x; cbn [SpecFloat.iter_pos].
  - rewrite !IH, Pos2Nat.inj_xI. cbn [Nat.iter].
    rewrite <- Nat.iter_add. rewrite Nat.iter_succ_r. f_equal. lia.
  - rewrite !IH, Pos2Nat.inj_xO. rewrite <- Nat.iter_add. f_equal. lia.
  - reflexivity.
Qed.

Lemma shr_iter_m mrs n :
  0 <= shr_m mrs →
  shr_m (@Nat.iter n shr_record shr_1 mrs) = shr_m mrs / 2 ^ Z.of_nat n.
Proof.
  intros Hm. induction n as [|n IH].
  - cbn. rewrite Z.div_1_r. reflexivity.
  - rewrite Nat.iter_succ.
    destruct (Nat.iter n shr_1 mrs) as [m r s] eqn:Hiter. cbn [shr_m] in IH.
    assert (0 <= m) by (rewrite IH; apply Z.div_pos; lia).
    rewrite shr_1_spec by assumption. cbn [shr_m].
    rewrite IH, Z.div_div by lia.
    rewrite Nat2Z.inj_succ, Z.pow_succ_r by lia. f_equal. lia.
Qed.

Lemma shr_iter_r mrs n :
  0 <= shr_m mrs →
  shr_r (@Nat.iter (S n) shr_record shr_1 mrs) =
  Z.odd (shr_m mrs / 2 ^ Z.of_nat n).
Proof.
  intros Hm. rewrite Nat.iter_succ.
  pose proof (shr_iter_m mrs n Hm) as Hiter.
  destruct (Nat.iter n shr_1 mrs) as [m r s]. cbn [shr_m] in Hiter.
  assert (0 <= m) by (rewrite Hiter; apply Z.div_pos; lia).
  rewrite shr_1_spec by assumption. cbn [shr_r]. rewrite Hiter. reflexivity.
Qed.

(** Nothing is dropped when the mantissa fits. *)
Lemma shr_fexp_keep N ex :
  shift N ex <= 0 →
  shr_fexp 53 1024 N ex loc_Exact =
  ({| shr_m := N; shr_r := false; shr_s := false |}, ex).
Proof.
  intros Hs. unfold shr_fexp. fold (shift N ex).
  destruct (shift N ex); [reflexivity | lia | reflexivity].
Qed.

(** Otherwise the mantissa becomes the quotient by [2^shift], and the round
    bit is the highest bit dropped. *)
Lemma shr_fexp_drop N ex :
  0 <= N → 0 < shift N ex →
  ∃ mrs,
    shr_fexp 53 1024 N ex loc_Exact = (mrs, ex + shift N ex)
    ∧ shr_m mrs = N / 2 ^ shift N ex
    ∧ shr_r mrs = Z.odd (N / 2 ^ (shift N ex - 1)).
Proof.
  intros HN Hs. unfold shr_fexp. fold (shift N ex).
  destruct (shift N ex) as [|p|p] eqn:Hshift; try lia.
  cbn [shr shr_record_of_loc]. eexists. split; [reflexivity|].
  rewrite iter_pos_nat.
  split.
  - rewrite shr_iter_m by (cbn; lia). cbn [shr_m].
    rewrite positive_nat_Z. reflexivity.
  - destruct (Pos2Nat.is_succ p) as [n Hn]. rewrite Hn.
    rewrite shr_iter_r by (cbn; lia). cbn [shr_m].
    do 3 f_equal. lia.
Qed.

(** Rounding keeps the quotient or adds one to it, the latter only when the
    round bit is set. *)
Lemma round_nearest_even_bounds mrs :
  let q' := round_nearest_even (shr_m mrs) (loc_of_shr_record mrs) in
  shr_m mrs <= q' <= shr_m mrs + 1 ∧ (q' = shr_m mrs + 1 → shr_r mrs = true).
Proof.
  destruct mrs as [m [|] [|]]; cbn; try destruct (Z.even m);
    (split; [lia | intros; first [reflexivity | lia]]).
Qed.

Lemma pow2_split a b : 0 <= a → 0 <= b → 2 ^ (a + b) = 2 ^ a * 2 ^ b.
Proof. intros. apply Z.pow_add_r; lia. Qed.

(** The second normalisation and the floor: truncating further never changes
    the integer part. *)
Lemma floor_of_round q' e' :
  0 <= q' → e' <= -46 → -1074 <= e' → q' <= 70 * 2 ^ (- e') →
  floor_index
    (let '(mrs'', e'') := shr_fexp 53 1024 q' e' loc_Exact in
     match shr_m mrs'' with
     | 0 => S754_zero false
     | Z.pos m => if e'' <=? 1024 - 53 then S754_finite false m e''
                  else S754_infinity false
     | Z.neg _ => S754_nan
     end) = q' / 2 ^ (- e').
Proof.
  intros Hq He Hmin Hbound.
  assert (Hd : Zdigits2 q' <= 7 - e').
  { destruct (Z.eq_dec q' 0) as [->|Hne]; [cbn; lia|].
    pose proof (Zdigits2_bounds q' ltac:(lia)) as [Hlow _].
    assert (Hlt : 2 ^ (Zdigits2 q' - 1) < 2 ^ (7 - e')).
    { eapply Z.le_lt_trans; [exact Hlow|].
      eapply Z.le_lt_trans; [exact Hbound|].
      replace (7 - e') with (7 + - e') by lia.
      rewrite (pow2_split 7 (- e')) by lia.
      assert (0 < 2 ^ (- e')) by (apply Z.pow_pos_nonneg; lia). lia. }
    apply Z.pow_lt_mono_r_iff in Hlt; lia. }
  destruct (Z_le_gt_dec (shift q' e') 0) as [Hs | Hs].
  - rewrite shr_fexp_keep by exact Hs. cbn [shr_m].
    destruct q' as [|p|p]; [| |lia].
    + cbn. reflexivity.
    + destruct (Z.leb_spec e' (1024 - 53)); [|lia].
      cbn [floor_index cond_Zopp].
      destruct (Z.leb_spec 0 e'); [lia|]. reflexivity.
  - destruct (shr_fexp_drop q' e' Hq ltac:(lia)) as (mrs & -> & Hm & _).
    assert (Hshift : shift q' e' <= - e' - 46).
    { unfold shift, fexp, emin in *. lia. }
    assert (Hdiv : shr_m mrs / 2 ^ (- (e' + shift q' e')) = q' / 2 ^ (- e')).
    { rewrite Hm, Z.div_div
        by first [apply Z.pow_nonzero; lia | apply Z.pow_pos_nonneg; lia].
      rewrite <- pow2_split by lia. do 2 f_equal. lia. }
    destruct (shr_m mrs) as [|p|p] eqn:Hmrs.
    + cbn [floor_index]. rewrite <- Hdiv. reflexivity.
    + destruct (Z.leb_spec (e' + shift q' e') (1024 - 53)); [|lia].
      cbn [floor_index cond_Zopp].
      destruct (Z.leb_spec 0 (e' + shift q' e')); [lia|]. exact Hdiv.
    + pose proof (Z.div_pos q' (2 ^ shift q' e') Hq
                    ltac:(apply Z.pow_pos_nonneg; lia)).
      lia.
Qed.

(** A set round bit means the dropped part is at least half a unit. *)
Lemma odd_div_mod N s :
  0 <= N → 1 <= s → Z.odd (N / 2 ^ (s - 1)) = true →
  2 ^ (s - 1) <= N mod 2 ^ s.
Proof.
  intros HN Hs Hodd.
  assert (Hp : 0 < 2 ^ (s - 1)) by (apply Z.pow_pos_nonneg; lia).
  replace s with (s - 1 + 1) at 2 by lia.
  rewrite pow2_split by lia. change (2 ^ 1) with 2.
  rewrite Z.rem_mul_r by lia.
  rewrite Zmod_odd, Hodd.
  pose proof (Z.mod_pos_bound N (2 ^ (s - 1)) Hp). lia.
Qed.

(** The integer part of the rounded value of [N * 2^-E], for a product
    below 70: it is the integer part of the exact value, or one more when
    the exact value lies within half a unit in the last place, [2^(s-1-E)],
    of the next integer. *)
Lemma product_floor N E :
  0 < N → 47 <= E <= 1120 → N < 70 * 2 ^ E → N < 2 ^ 106 →
  let idx :=
    floor_index (binary_round_aux 53 1024 false N (- E) loc_Exact) in
  N / 2 ^ E <= idx <= N / 2 ^ E + 1
  ∧ (idx = N / 2 ^ E + 1 →
     ∃ s, 1 <= s <= 53 ∧ s <= E - 46 ∧ 2 ^ E - 2 ^ (s - 1) <= N mod 2 ^ E).
Proof.
  intros HN HE Hval Hbits idx. subst idx.
  assert (HpE : 0 < 2 ^ E) by (apply Z.pow_pos_nonneg; lia).
  pose proof (Zdigits2_bounds N HN) as [Hlow Hhigh].
  assert (Hd1 : Zdigits2 N <= E + 7).
  { assert (Hlt : 2 ^ (Zdigits2 N - 1) < 2 ^ (E + 7)).
    { eapply Z.le_lt_trans; [exact Hlow|].
      rewrite (pow2_split E 7) by lia. lia. }
    apply Z.pow_lt_mono_r_iff in Hlt; lia. }
  assert (Hd2 : Zdigits2 N <= 106).
  { assert (Hlt : 2 ^ (Zdigits2 N - 1) < 2 ^ 106) by lia.
    apply Z.pow_lt_mono_r_iff in Hlt; lia. }
  assert (Hs53 : shift N (- E) <= 53) by (unfold shift, fexp, emin; lia).
  assert (HsE : shift N (- E) <= E - 46) by (unfold shift, fexp, emin; lia).
  unfold binary_round_aux.
  destruct (Z_le_gt_dec (shift N (- E)) 0) as [Hs | Hs].
  - rewrite shr_fexp_keep by exact Hs.
    cbn [shr_m loc_of_shr_record round_nearest_even].
    rewrite floor_of_round;
      [ | lia | lia | unfold shift, fexp, emin in Hs; lia
        | rewrite Z.opp_involutive; lia].
    rewrite Z.opp_involutive. split; [lia|]. intros; lia.
  - destruct (shr_fexp_drop N (- E) ltac:(lia) ltac:(lia)) as (mrs & -> & Hm & Hr).
    pose proof (round_nearest_even_bounds mrs) as [Hq' Hup].
    set (q' := round_nearest_even (shr_m mrs) (loc_of_shr_record mrs)) in *.
    set (s := shift N (- E)) in *.
    assert (Hps : 0 < 2 ^ s) by (apply Z.pow_pos_nonneg; lia).
    assert (HpD : 0 < 2 ^ (E - s)) by (apply Z.pow_pos_nonneg; lia).
    assert (HE2 : 2 ^ E = 2 ^ s * 2 ^ (E - s)).
    { rewrite <- pow2_split by lia. f_equal. lia. }
    assert (Hq0 : 0 <= N / 2 ^ s) by (apply Z.div_pos; lia).
    assert (Hqlt : N / 2 ^ s < 70 * 2 ^ (E - s)).
    { apply Z.div_lt_upper_bound; [lia|]. nia. }
    rewrite floor_of_round; [| lia | lia | unfold s, shift, fexp, emin; lia |
      replace (- (- E + s)) with (E - s) by lia; lia].
    replace (- (- E + s)) with (E - s) by lia.
    assert (Hk0 : N / 2 ^ E = (N / 2 ^ s) / 2 ^ (E - s)).
    { rewrite HE2, Z.div_div by lia. reflexivity. }
    rewrite Hk0, Hm in *.
    assert (Hmono1 : N / 2 ^ s / 2 ^ (E - s) <= q' / 2 ^ (E - s))
      by (apply Z.div_le_mono; lia).
    assert (Hmono2 : q' / 2 ^ (E - s) <= (N / 2 ^ s + 1) / 2 ^ (E - s))
      by (apply Z.div_le_mono; lia).
    assert (Hstep : (N / 2 ^ s + 1) / 2 ^ (E - s)
                    <= N / 2 ^ s / 2 ^ (E - s) + 1).
    { apply Z.div_le_upper_bound; [lia|].
      pose proof (Z.mul_div_le (N / 2 ^ s) (2 ^ (E - s)) HpD).
      pose proof (Z.mod_pos_bound (N / 2 ^ s) (2 ^ (E - s)) HpD).
      pose proof (Z.div_mod (N / 2 ^ s) (2 ^ (E - s)) ltac:(lia)). nia. }
    split; [lia|].
    intros Hidx. exists s. split; [lia|]. split; [lia|].
    assert (Hqq : q' = N / 2 ^ s + 1).
    { destruct (Z.eq_dec q' (N / 2 ^ s)) as [Heq|]; [|lia].
      rewrite Heq in Hidx. lia. }
    specialize (Hup Hqq). rewrite Hr in Hup.
    pose proof (odd_div_mod N s ltac:(lia) ltac:(lia) Hup) as Hrem.
    rewrite Hqq in Hidx.
    assert (Hmod : (N / 2 ^ s) mod 2 ^ (E - s) = 2 ^ (E - s) - 1).
    { pose proof (Z.div_mod (N / 2 ^ s) (2 ^ (E - s)) ltac:(lia)).
      pose proof (Z.div_mod (N / 2 ^ s + 1) (2 ^ (E - s)) ltac:(lia)).
      pose proof (Z.mod_pos_bound (N / 2 ^ s) (2 ^ (E - s)) HpD).
      pose proof (Z.mod_pos_bound (N / 2 ^ s + 1) (2 ^ (E - s)) HpD).
      nia. }
    rewrite HE2 at 2. rewrite Z.rem_mul_r by lia. rewrite Hmod.
    replace (2 ^ s) with (2 * 2 ^ (s - 1)) in *
      by (rewrite <- Z.pow_succ_r by lia; f_equal; lia).
    nia.
Qed.

(** A draw is zero, or [m * 2^e] with [m] below [2^53] and below [2^-e]. *)
Lemma unit_double_inv r :
  unit_double r →
  (∃ s, r = S754_zero s)
  ∨ ∃ m e, r = S754_finite false m e
           ∧ -1074 <= e < 0 ∧ Z.pos m < 2 ^ (- e) ∧ Z.pos m < 2 ^ 53
           ∧ draw_value r = Z.pos m # Z.to_pos (2 ^ (- e)).
Proof.
  intros (Hfin & Hvalid & Hlo & Hhi).
  destruct r as [s| |  |s m e]; try discriminate; [left; eauto|right].
  cbn [valid_binary] in Hvalid. unfold bounded, canonical_mantissa in Hvalid.
  apply andb_prop in Hvalid as [Hcanon _]. apply Z.eqb_eq in Hcanon.
  unfold fexp, emin in Hcanon.
  pose proof (Zdigits2_bounds (Z.pos m) ltac:(lia)) as [_ Hhigh].
  cbn [Zdigits2] in Hhigh.
  assert (Hm53 : Z.pos m < 2 ^ 53).
  { eapply Z.lt_le_trans; [exact Hhigh|]. apply Z.pow_le_mono_r; lia. }
  unfold draw_value in *.
  destruct (Z.leb_spec 0 e) as [He|He].
  - exfalso. destruct s; cbn [cond_Zopp] in *.
    + unfold Qle in Hlo. cbn in Hlo.
      assert (0 < 2 ^ e) by (apply Z.pow_pos_nonneg; lia). nia.
    + unfold Qlt in Hhi. cbn in Hhi.
      assert (0 < 2 ^ e) by (apply Z.pow_pos_nonneg; lia). nia.
  - destruct s; cbn [cond_Zopp] in *.
    + exfalso. unfold Qle in Hlo. cbn in Hlo. lia.
    + exists m, e. split; [reflexivity|].
      unfold Qlt in Hhi. cbn in Hhi.
      assert (0 < 2 ^ (- e)) by (apply Z.pow_pos_nonneg; lia).
      rewrite Z2Pos.id in Hhi by lia.
      repeat split; try lia.
Qed.

Lemma number_of_nat_70 :
  number_of_nat 70 = S754_finite false 4925812092436480 (-46).
Proof. vm_compute. reflexivity. Qed.

(** [Math.floor(r * 70)] for a draw [r]: an index below 70, equal to the
    integer part of the exact product or one more, the latter only when the
    exact product lies within [2^-47] of the next integer. *)
Lemma floor_scaled_70 r :
  unit_double r →
  0 <= floor_scaled r 70 < 70
  ∧ Qfloor (draw_value r * 70) <= floor_scaled r 70
    <= Qfloor (draw_value r * 70) + 1
  ∧ ((draw_value r * 70
      < inject_Z (Qfloor (draw_value r * 70) + 1) - (1 # 2 ^ 47))%Q →
     floor_scaled r 70 = Qfloor (draw_value r * 70)).
Proof.
  intros Hr. unfold floor_scaled. rewrite number_of_nat_70.
  destruct (unit_double_inv r Hr)
    as [[s ->] | (m & e & -> & He & Hlt & Hm53 & Hv)].
  - cbn [SFmul floor_index draw_value]. change (Qfloor (0 * 70)) with 0.
    repeat split; lia.
  - rewrite Hv. clear Hv Hr.
    cbn [SFmul xorb].
    set (P := 2 ^ (- e)) in *.
    assert (HP : 0 < P) by (apply Z.pow_pos_nonneg; lia).
    set (N := Z.pos (m * 4925812092436480)).
    assert (HN : N = Z.pos m * (70 * 2 ^ 46)) by reflexivity.
    assert (HE : 2 ^ (46 - e) = 2 ^ 46 * P).
    { unfold P. rewrite <- pow2_split by lia. f_equal; lia. }
    replace (e + -46) with (- (46 - e)) by lia.
    destruct (product_floor N (46 - e)) as [Hidx Hup];
      [ lia | lia | rewrite HN, HE; nia
        | rewrite HN; change (2 ^ 106) with (2 ^ 53 * 2 ^ 53); nia |].
    set (idx := floor_index _) in *.
    assert (Hk0 : N / 2 ^ (46 - e) = (Z.pos m * 70) / P).
    { rewrite HN, HE.
      replace (Z.pos m * (70 * 2 ^ 46)) with (2 ^ 46 * (Z.pos m * 70)) by lia.
      rewrite Z.div_mul_cancel_l by lia. reflexivity. }
    assert (Hfloor : Qfloor ((Z.pos m # Z.to_pos P) * 70) = (Z.pos m * 70) / P).
    { unfold Qfloor, Qmult. cbn [Qnum Qden].
      rewrite Pos.mul_1_r, Z2Pos.id by lia. reflexivity. }
    rewrite Hfloor. rewrite Hk0 in *.
    assert (Hk69 : Z.pos m * 70 / P < 70).
    { apply Z.div_lt_upper_bound; lia. }
    assert (Hk0' : 0 <= Z.pos m * 70 / P) by (apply Z.div_pos; lia).
    assert (Hmod : N mod 2 ^ (46 - e) = 2 ^ 46 * ((Z.pos m * 70) mod P)).
    { rewrite HN, HE.
      replace (Z.pos m * (70 * 2 ^ 46)) with (2 ^ 46 * (Z.pos m * 70)) by lia.
      apply Z.mul_mod_distr_l; lia. }
    pose proof (Z.div_mod (Z.pos m * 70) P ltac:(lia)) as Hdm.
    pose proof (Z.mod_pos_bound (Z.pos m * 70) P HP) as Hmb.
    split; [|split; [exact Hidx|]].
    + split; [lia|].
      destruct (Z.eq_dec idx (Z.pos m * 70 / P + 1)) as [Heq|]; [|lia].
      destruct (Hup Heq) as (s & Hs & Hs' & Hrem).
      rewrite Hmod, HE in Hrem.
      assert (2 ^ (s - 1) <= 2 ^ 52) by (apply Z.pow_le_mono_r; lia).
      change (2 ^ 46) with 70368744177664 in *.
      change (2 ^ 52) with 4503599627370496 in *. nia.
    + intros Hq.
      destruct (Z.eq_dec idx (Z.pos m * 70 / P + 1)) as [Heq|]; [|lia].
      exfalso. destruct (Hup Heq) as (s & Hs & Hs' & Hrem).
      rewrite Hmod, HE in Hrem.
      assert (Hpow : 2 * 2 ^ (s - 1) <= P).
      { rewrite <- Z.pow_succ_r by lia. unfold P. apply Z.pow_le_mono_r; lia. }
      unfold Qlt, Qminus, Qplus, Qopp, Qmult, inject_Z in Hq.
      cbn [Qnum Qden] in Hq.
      rewrite Pos.mul_1_r, Pos.mul_1_l in Hq.
      rewrite Z2Pos.id in Hq by lia.
      change (Z.pos (2 ^ 47)) with (2 * 70368744177664) in Hq.
      change (2 ^ 46) with 70368744177664 in *.
      nia.
Qed.

End Binary64.

Lemma length_append s1 s2 :
  String.length (s1 +:+ s2) = String.length s1 + String.length s2.
Proof.
  induction s1 as [|c s1 IH]; simpl; [reflexivity | f_equal; exact IH].
Qed.

Lemma get_lt s n : n < String.length s → ∃ c, String.get n s = Some c.
Proof.
  revert n. induction s as [|c s IH]; intros n Hn; cbn in *; [lia|].
  destruct n as [|n]; [eauto|]. apply IH. lia.
Qed.

Lemma get_elem_of s n c :
  String.get n s = Some c → c ∈ String.list_ascii_of_string s.
Proof.
  revert n. induction s as [|a s IH]; intros n Hget; cbn in *; [discriminate|].
  destruct n as [|n].
  - injection Hget as ->. apply list_elem_of_here.
  - apply list_elem_of_further. eapply IH, Hget.
Qed.

Lemma charAt_get s i :
  (0 ≤ i < Z.of_nat (String.length s))%Z →
  ∃ c, String.get (Z.to_nat i) s = Some c ∧ charAt s i = String c "".
Proof.
  intros [Hlo Hhi]. unfold charAt.
  destruct (Z.ltb_spec i 0) as [?|_]; [lia|].
  destruct (get_lt s (Z.to_nat i)) as [c Hc]; [lia|].
  exists c. rewrite Hc. split; reflexivity.
Qed.

Lemma alphabet_length : length alphabet = 70.
Proof. reflexivity. Qed.

Lemma alphabet_NoDup : NoDup alphabet.
Proof. apply (bool_decide_unpack _). vm_compute. reflexivity. Qed.

Lemma or_empty_Some s : or_empty (Some s) = s.
Proof. cbn. destruct (String.eqb_spec s ""); congruence. Qed.

(** Toggling twice writes back the truthiness the entry read with; for an
    id that had no entry of its own this adds one. *)
Lemma toggle_toggle id (m : gmap string bool) :
  toggle id (toggle id m) = <[id := truthy (get m id)]> m.
Proof.
  unfold toggle at 1. unfold get at 1. unfold toggle at 1.
  rewrite lookup_insert_eq. cbn [truthy]. rewrite negb_involutive.
  unfold toggle. rewrite insert_insert_eq. reflexivity.
Qed.

Lemma truthy_toggle_eq id (m : gmap string bool) :
  truthy (get (toggle id m) id) = negb (truthy (get m id)).
Proof. unfold toggle, get at 1. rewrite lookup_insert_eq. reflexivity. Qed.

Lemma truthy_toggle_ne id id' (m : gmap string bool) :
  id ≠ id' → truthy (get (toggle id m) id') = truthy (get m id').
Proof.
  intros Hne. unfold toggle, get. rewrite lookup_insert_ne; done.
Qed.

Lemma truthy_toggle_toggle id id' (m : gmap string bool) :
  truthy (get (toggle id (toggle id m)) id') = truthy (get m id').
Proof.
  destruct (decide (id = id')) as [<-|Hne].
  - rewrite !truthy_toggle_eq. apply negb_involutive.
  - rewrite !truthy_toggle_ne; done.
Qed.

(** A binary64 number that passes the boolean test is a possible draw. *)
Lemma unit_doubleb_spec r : unit_doubleb r = true → unit_double r.
Proof.
  unfold unit_doubleb, unit_double. intros H.
  apply andb_prop in H as [H Hhi]. apply andb_prop in H as [H Hlo].
  apply andb_prop in H as [Hfin Hvalid].
  split; [exact Hfin|]. split; [exact Hvalid|]. split.
  - apply Qle_bool_iff, Hlo.
  - apply Qnot_le_lt. intros Hle. apply Qle_bool_iff in Hle.
    rewrite Hle in Hhi. discriminate Hhi.
Qed.

Lemma sample_draws_unit : Forall unit_double sample_draws.
Proof.
  apply Forall_forall. intros r Hr. apply unit_doubleb_spec.
  assert (Hall : forallb unit_doubleb sample_draws = true)
    by (vm_compute; reflexivity).
  rewrite forallb_forall in Hall. apply Hall, list_elem_of_In, Hr.
Qed.

Lemma sample_rand_unit n : unit_double (sample_rand n).
Proof.
  unfold sample_rand.
  destruct (sample_draws !! (n mod 16)) as [r|] eqn:Hr; cbn [default].
  - pose proof sample_draws_unit as Hall. rewrite Forall_forall in Hall.
    apply Hall. eapply list_elem_of_lookup_2, Hr.
  - apply unit_doubleb_spec. reflexivity.
Qed.

(** [String.get] reads the list of characters. *)
Lemma get_list_ascii s n :
  String.get n s = String.list_ascii_of_string s !! n.
Proof.
  revert n. induction s as [|a s IH]; intros [|n]; cbn; try reflexivity.
  apply IH.
Qed.

(** Every index below 70 is the index of some draw. *)
Lemma reach_spec k :
  (0 ≤ k < 70)%Z → unit_double (reach k) ∧ floor_scaled (reach k) 70 = k.
Proof.
  intros Hk.
  assert (Hall : forallb
                   (λ j, unit_doubleb (reach j)
                         && (floor_scaled (reach j) 70 =? j)%Z)
                   (Z.of_nat <$> seq 0 70) = true)
    by (vm_compute; reflexivity).
  rewrite forallb_forall in Hall.
  assert (Hin : In k (Z.of_nat <$> seq 0 70)).
  { apply list_elem_of_In, list_elem_of_fmap. exists (Z.to_nat k).
    split; [lia|]. apply list_elem_of_In, in_seq. lia. }
  destruct (andb_prop _ _ (Hall k Hin)) as [Hunit Hidx].
  split; [apply unit_doubleb_spec, Hunit | apply Z.eqb_eq, Hidx].
Qed.

Section Properties.

Context {R : Type}.
Variable serve : Request → R → Response * R.
Variable rand : nat → spec_float.

(** ** The event loop *)

Lemma settle_mono fuel fuel' queue (w w' : World R) :
  settle serve rand fuel queue w = Some w' →
  fuel ≤ fuel' →
  settle serve rand fuel' queue w = Some w'.
Proof.
  revert fuel' queue w.
  induction fuel as [|fuel IH]; intros fuel' queue w Hrun Hle.
  - destruct queue; [|discriminate].
    destruct fuel'; exact Hrun.
  - destruct queue as [|p rest]; [destruct fuel'; exact Hrun|].
    destruct fuel' as [|fuel']; [lia|].
    cbn [settle] in *.
    destruct (turn serve rand p w) as [w1 q].
    apply IH; [exact Hrun | lia].
Qed.

Lemma dispatch_mono fuel fuel' handler (w w' : World R) :
  dispatch serve rand fuel handler w = Some w' →
  fuel ≤ fuel' →
  dispatch serve rand fuel' handler w = Some w'.
Proof. apply settle_mono. Qed.

(** Symbolic execution: unfold one layer of the loop, then split on the
    answer of the remote and on the presence of an error. *)
Ltac answer :=
  match goal with
  | |- context [serve ?q ?r] =>
      let H := fresh "Hserve" in
      let resp := fresh "resp" in
      destruct (serve q r) as [resp ?] eqn:H
  | |- context [match error ?r with _ => _ end] =>
      let H := fresh "Herror" in destruct (error r) eqn:H
  end.

Ltac run :=
  unfold dispatch; cbn [settle]; unfold turn; cbn; repeat (answer; cbn).

(** ** [fetchPasswords] *)

(** Lifts a result obtained with the least fuel to any larger amount. *)
Lemma dispatch_enough fuel fuel' handler (w : World R) (P : World R → Prop) :
  fuel ≤ fuel' →
  (∃ w', dispatch serve rand fuel handler w = Some w' ∧ P w') →
  ∃ w', dispatch serve rand fuel' handler w = Some w' ∧ P w'.
Proof.
  intros Hle (w' & Hrun & HP). exists w'. split; [|exact HP].
  exact (dispatch_mono _ _ _ _ _ Hrun Hle).
Qed.

(** C9. Every run of [fetchPasswords] completes and leaves [loading] false,
    whether the list request fails or succeeds; so does the run started by
    the mount effect. *)
Theorem fetchPasswords_clears_loading fuel (w : World R) :
  2 ≤ fuel →
  (∃ w', dispatch serve rand fuel (λ _, fetchPasswords) w = Some w'
         ∧ loading (st w') = false)
  ∧ (∃ w', dispatch serve rand fuel (handler EvMount) w = Some w'
           ∧ loading (st w') = false).
Proof.
  intros Hfuel.
  split; (apply (dispatch_enough 2); [exact Hfuel|]);
    run; eexists; (split; reflexivity).
Qed.

(** C4. When the list request succeeds, [passwords] becomes exactly the rows
    of the response, whatever it held before; an empty or absent row set
    gives the empty list, and no toast is shown. *)
Theorem fetchPasswords_replaces_passwords fuel (w : World R) resp r' :
  2 ≤ fuel →
  serve (QSelect "passwords" "*" "created_at" false) (remote w) = (resp, r') →
  error resp = None →
  ∃ w', dispatch serve rand fuel (λ _, fetchPasswords) w = Some w'
        ∧ passwords (st w') = or_nil (data resp)
        ∧ (∀ rows, data resp = Some rows → passwords (st w') = rows)
        ∧ (data resp = Some [] ∨ data resp = None → passwords (st w') = [])
        ∧ toasts (outside w') = toasts (outside w).
Proof.
  intros Hfuel Hserve Herror.
  apply (dispatch_enough 2); [exact Hfuel|].
  unfold dispatch; cbn [settle]; unfold turn; cbn.
  rewrite Hserve; cbn. rewrite Herror; cbn.
  eexists; split; [reflexivity|]. cbn.
  repeat split.
  - intros rows ->. reflexivity.
  - intros [-> | ->]; reflexivity.
Qed.

(** C5. When the list request fails, [passwords] keeps its value: the only
    effects are the request itself, one destructive toast and
    [loading = false]. *)
Theorem fetchPasswords_failure_keeps_passwords fuel (w : World R) resp r' e :
  2 ≤ fuel →
  serve (QSelect "passwords" "*" "created_at" false) (remote w) = (resp, r') →
  error resp = Some e →
  ∃ w', dispatch serve rand fuel (λ _, fetchPasswords) w = Some w'
        ∧ passwords (st w') = passwords (st w)
        ∧ st w' = set_loading false (st w)
        ∧ toasts (outside w') =
            toasts (outside w) ++
            [{| title := "Error";
                description := Some "Failed to load passwords";
                variant := Some "destructive" |}]
        ∧ clipboard (outside w') = clipboard (outside w)
        ∧ signedOut (outside w') = signedOut (outside w)
        ∧ sent w' = sent w ++ [QSelect "passwords" "*" "created_at" false].
Proof.
  intros Hfuel Hserve Herror.
  apply (dispatch_enough 2); [exact Hfuel|].
  unfold dispatch; cbn [settle]; unfold turn; cbn.
  rewrite Hserve; cbn. rewrite Herror; cbn.
  eexists; split; [reflexivity|]. cbn.
  repeat split.
Qed.

(** ** [handleSubmit] *)

(** C1. Every call of [handleSubmit] completes with [formData] reset to four
    empty strings: whatever render [s] the handler comes from and whatever
    world [w] it runs in, hence in the edit and in the create branch, on
    failure and on success; both at the moment the handler itself returns
    and once the refresh it started has settled.  An event is the case where
    [s] is the state of [w]. *)
Theorem handleSubmit_resets_formData fuel (s : State) (w : World R) :
  3 ≤ fuel →
  (∃ w1 tasks,
     finish serve rand fuel (handleSubmit s) w = Some (w1, tasks)
     ∧ formData (st w1) = FormData.empty)
  ∧ (∃ w', settle serve rand fuel [handleSubmit s] w = Some w'
           ∧ formData (st w') = FormData.empty).
Proof.
  intros Hfuel. split.
  - destruct fuel as [|[|fuel]]; [lia..|].
    unfold handleSubmit. destruct (editingPassword s); cbn;
      repeat (answer; cbn); do 2 eexists; (split; reflexivity).
  - cut (∃ w', settle serve rand 3 [handleSubmit s] w = Some w'
               ∧ formData (st w') = FormData.empty).
    { intros (w' & Hrun & Hform). exists w'. split; [|exact Hform].
      exact (settle_mono _ _ _ _ _ Hrun Hfuel). }
    unfold handleSubmit. destruct (editingPassword s); run;
      eexists; (split; reflexivity).
Qed.

(** C2, as the code has it. When the update request of the edit branch
    fails, [passwords], [editingPassword] and every other field but one keep
    their values, one destructive toast is shown and nothing else is sent;
    [formData], however, is reset to four empty strings. *)
Theorem handleSubmit_update_failure fuel (w : World R) editing resp r' e :
  2 ≤ fuel →
  editingPassword (st w) = Some editing →
  serve (QUpdate "passwords" (formData (st w)) "id" (Password.id editing))
    (remote w) = (resp, r') →
  error resp = Some e →
  ∃ w', dispatch serve rand fuel handleSubmit w = Some w'
        ∧ passwords (st w') = passwords (st w)
        ∧ editingPassword (st w') = Some editing
        ∧ formData (st w') = FormData.empty
        ∧ st w' = set_formData FormData.empty (st w)
        ∧ toasts (outside w') =
            toasts (outside w) ++
            [{| title := "Error";
                description := Some "Failed to update password";
                variant := Some "destructive" |}]
        ∧ sent w' =
            sent w ++ [QUpdate "passwords" (formData (st w)) "id"
                         (Password.id editing)].
Proof.
  intros Hfuel Hedit Hserve Herror.
  apply (dispatch_enough 2); [exact Hfuel|].
  unfold dispatch, handleSubmit. rewrite Hedit.
  cbn [settle]; unfold turn; cbn.
  rewrite Hserve; cbn. rewrite Herror; cbn.
  eexists; split; [reflexivity|]. cbn.
  repeat split. exact Hedit.
Qed.

(** C6. With no record under edit, submit sends one insert whose payload is
    the form buffer.  If the insert fails, nothing else is sent and
    [isAddDialogOpen] keeps its value; if it succeeds, [isAddDialogOpen]
    becomes false and [fetchPasswords] runs: the list request is sent next
    and its outcome lands in [passwords] and [loading]. *)
Theorem handleSubmit_create fuel (w : World R) resp r' :
  3 ≤ fuel →
  editingPassword (st w) = None →
  serve (QInsert "passwords" [formData (st w)]) (remote w) = (resp, r') →
  ∃ w', dispatch serve rand fuel handleSubmit w = Some w'
        ∧ (is_Some (error resp) →
           isAddDialogOpen (st w') = isAddDialogOpen (st w)
           ∧ sent w' = sent w ++ [QInsert "passwords" [formData (st w)]])
        ∧ (error resp = None →
           isAddDialogOpen (st w') = false
           ∧ sent w' = sent w ++ [QInsert "passwords" [formData (st w)];
                                  QSelect "passwords" "*" "created_at" false]
           ∧ loading (st w') = false
           ∧ ∀ listed r'',
               serve (QSelect "passwords" "*" "created_at" false) r'
               = (listed, r'') →
               passwords (st w') =
                 match error listed with
                 | Some _ => passwords (st w)
                 | None => or_nil (data listed)
                 end).
Proof.
  intros Hfuel Hedit Hserve.
  apply (dispatch_enough 3); [exact Hfuel|].
  unfold dispatch, handleSubmit. rewrite Hedit.
  cbn [settle]; unfold turn; cbn.
  rewrite Hserve; cbn.
  destruct (error resp) as [e|] eqn:Herror; cbn.
  - eexists; split; [reflexivity|]. cbn. split.
    + intros _. split; reflexivity.
    + intros [=].
  - destruct (serve (QSelect "passwords" "*" "created_at" false) r')
      as [listed r''] eqn:Hlist; cbn.
    destruct (error listed) eqn:Hlisted; cbn;
      (eexists; split; [reflexivity|]); cbn;
      (split; [intros [? [=]]|]); intros _;
      rewrite <- app_assoc; cbn; repeat split;
      intros ? ? [= <- <-]; rewrite Hlisted; reflexivity.
Qed.

(** ** [generatePassword] *)

(** The loop draws [n] times and hands [picks] to what follows it. *)
Lemma exec_generate_loop {B} n acc (f : string → Prog B) (w : World R) :
  exec serve rand (generate_loop n acc ≫= f) w =
  exec serve rand (f (picks rand (draws w) n acc))
    (mkWorld (st w) (outside w) (sent w) (remote w) (draws w + n)).
Proof.
  revert acc w. induction n as [|n IH]; intros acc w.
  - cbn. rewrite Nat.add_0_r. destruct w; reflexivity.
  - cbn [generate_loop picks].
    change (exec serve rand
              (Rand (λ r, generate_loop n
                            (acc +:+ charAt chars
                               (floor_scaled r (String.length chars))) ≫= f))
              w = exec serve rand
                    (f (picks rand (S (draws w)) n
                          (acc +:+ charAt chars
                             (floor_scaled (rand (draws w))
                                (String.length chars)))))
                    (mkWorld (st w) (outside w) (sent w) (remote w)
                       (draws w + S n))).
    cbn [exec]. rewrite IH. cbn [st outside sent remote draws].
    rewrite Nat.add_succ_r. reflexivity.
Qed.

(** One run of [generatePassword]: sixteen draws, then one [setFormData]
    built from the form of the current render. *)
Lemma dispatch_generatePassword fuel (w : World R) :
  1 ≤ fuel →
  dispatch serve rand fuel generatePassword w =
  Some (mkWorld
          (set_formData
             (FormData.with_password (formData (st w))
                (picks rand (draws w) 16 ""))
             (st w))
          (outside w) (sent w) (remote w) (draws w + 16)).
Proof.
  intros Hfuel. destruct fuel as [|fuel]; [lia|].
  unfold dispatch, generatePassword. cbn [settle]. unfold turn.
  rewrite exec_generate_loop. cbn -[picks Nat.add].
  destruct fuel; reflexivity.
Qed.

(** C10. [generatePassword] leaves [website], [username] and [notes] of the
    form buffer, and every other state field, as they were. *)
Theorem generatePassword_frame fuel (w : World R) :
  1 ≤ fuel →
  ∃ w', dispatch serve rand fuel generatePassword w = Some w'
        ∧ FormData.website (formData (st w'))
          = FormData.website (formData (st w))
        ∧ FormData.username (formData (st w'))
          = FormData.username (formData (st w))
        ∧ FormData.notes (formData (st w'))
          = FormData.notes (formData (st w))
        ∧ passwords (st w') = passwords (st w)
        ∧ loading (st w') = loading (st w)
        ∧ showPasswords (st w') = showPasswords (st w)
        ∧ isAddDialogOpen (st w') = isAddDialogOpen (st w)
        ∧ editingPassword (st w') = editingPassword (st w).
Proof.
  intros Hfuel. eexists. split; [apply dispatch_generatePassword, Hfuel|].
  cbn. repeat split.
Qed.

(** ** The edit button *)

(** C8. Clicking the edit button of [r] makes [r] the record under edit and
    fills the form with its website, username and password, and with its
    notes or the empty string when it has none; no request is sent and
    [passwords] keeps its value. *)
Theorem editClick_loads_form fuel (w : World R) (r : Password.t) :
  1 ≤ fuel →
  ∃ w', dispatch serve rand fuel (λ _, editClick r) w = Some w'
        ∧ editingPassword (st w') = Some r
        ∧ formData (st w') =
            {| FormData.website := Password.website r;
               FormData.username := Password.username r;
               FormData.password := Password.password r;
               FormData.notes := match Password.notes r with
                                 | Some n => n
                                 | None => ""
                                 end |}
        ∧ passwords (st w') = passwords (st w)
        ∧ sent w' = sent w
        ∧ remote w' = remote w.
Proof.
  intros Hfuel. apply (dispatch_enough 1); [exact Hfuel|].
  eexists. split; [reflexivity|]. cbn -[or_empty]. repeat split.
  destruct (Password.notes r) as [n|]; [|reflexivity].
  rewrite or_empty_Some. reflexivity.
Qed.

(** The loop appends [n] characters to [acc], the [i]-th of them being
    the character of [chars] at the index computed from the [i]-th draw. *)
Lemma picks_spec n :
  (∀ k, unit_double (rand k)) →
  ∀ from acc,
    String.length (picks rand from n acc) = String.length acc + n
    ∧ (∀ i, i < String.length acc →
            String.get i (picks rand from n acc) = String.get i acc)
    ∧ (∀ i, i < n →
            String.get (String.length acc + i) (picks rand from n acc) =
            String.get
              (Z.to_nat (floor_scaled (rand (from + i)) (String.length chars)))
              chars).
Proof.
  intros rand_unit. induction n as [|n IH]; intros from acc.
  - cbn. repeat split; [lia | intros; lia].
  - cbn [picks].
    destruct (charAt_get chars
                (floor_scaled (rand from) (String.length chars)))
      as (c & Hc & ->).
    { change (String.length chars) with 70.
      apply floor_scaled_70, rand_unit. }
    destruct (IH (S from) (acc +:+ String c "")) as (Hlen & Hold & Hnew).
    rewrite length_append in Hlen, Hold, Hnew. cbn [String.length] in *.
    split; [lia|]. split.
    + intros i Hi. rewrite Hold by lia.
      symmetry. apply String.append_correct1, Hi.
    + intros [|i] Hi.
      * rewrite Nat.add_0_r, Hold by lia.
        pose proof (String.append_correct2 acc (String c "") 0) as Hlast.
        simpl in Hlast. rewrite <- Hlast, Nat.add_0_r. symmetry. exact Hc.
      * replace (String.length acc + S i)
          with (String.length acc + 1 + i) by lia.
        rewrite Hnew by lia.
        replace (from + S i) with (S from + i) by lia. reflexivity.
Qed.

(** C3, with the alphabet the code has. [generatePassword] stores in
    [formData.password] a string of exactly 16 characters; the [i]-th one is
    the character of [chars] at [Math.floor(r * 70)] for the [i]-th draw [r]
    alone, so positions are as independent as the draws; [chars] holds 70
    distinct characters and each of them is the character of some draw.  For
    a draw [r] the index is the integer part [k] of [70 r], or [k + 1] when
    the binary64 product rounds up to it, which needs [70 r] to lie within
    [2^-47] of [k + 1]: up to that rounding each character is picked on a
    draw interval of width [1/70], so a uniform draw gives a uniform
    character. *)
Theorem generatePassword_shape fuel (w : World R) :
  1 ≤ fuel →
  (∀ n, unit_double (rand n)) →
  ∃ w', dispatch serve rand fuel generatePassword w = Some w'
        ∧ String.length (FormData.password (formData (st w'))) = 16
        ∧ (∀ i, i < 16 →
             ∃ c, String.get i (FormData.password (formData (st w'))) = Some c
                  ∧ c ∈ alphabet
                  ∧ String.get
                      (Z.to_nat (floor_scaled (rand (draws w + i))
                                   (String.length chars)))
                      chars = Some c)
        ∧ length alphabet = 70
        ∧ NoDup alphabet
        ∧ (∀ c, c ∈ alphabet →
             ∃ r, unit_double r
                  ∧ String.get
                      (Z.to_nat (floor_scaled r (String.length chars)))
                      chars = Some c)
        ∧ ∀ r, unit_double r →
            (0 ≤ floor_scaled r (String.length chars) < 70)%Z
            ∧ (Qfloor (draw_value r * 70)
               ≤ floor_scaled r (String.length chars)
               ≤ Qfloor (draw_value r * 70) + 1)%Z
            ∧ ((draw_value r * 70
                < inject_Z (Qfloor (draw_value r * 70) + 1) - (1 # 2 ^ 47))%Q →
               floor_scaled r (String.length chars)
               = Qfloor (draw_value r * 70)).
Proof.
  intros Hfuel rand_unit.
  eexists. split; [apply dispatch_generatePassword, Hfuel|].
  cbn [st formData set_formData FormData.with_password FormData.password].
  destruct (picks_spec 16 rand_unit (draws w) "") as (Hlen & _ & Hget).
  split; [exact Hlen|]. split.
  - intros i Hi. specialize (Hget i Hi). cbn [String.length Nat.add] in Hget.
    destruct (get_lt (picks rand (draws w) 16 "") i) as [c Hc]; [lia|].
    exists c. split; [exact Hc|].
    rewrite Hc in Hget. symmetry in Hget. split; [|exact Hget].
    exact (get_elem_of _ _ _ Hget).
  - split; [exact alphabet_length|]. split; [exact alphabet_NoDup|]. split.
    + intros c Hc. apply list_elem_of_lookup in Hc as [j Hj].
      assert (Hj70 : j < 70).
      { rewrite <- alphabet_length. eapply lookup_lt_Some, Hj. }
      destruct (reach_spec (Z.of_nat j)) as [Hunit Hidx]; [lia|].
      exists (reach (Z.of_nat j)). split; [exact Hunit|].
      change (String.length chars) with 70.
      rewrite Hidx, Nat2Z.id, get_list_ascii. exact Hj.
    + intros r Hr. change (String.length chars) with 70.
      exact (floor_scaled_70 r Hr).
Qed.

(** ** Visibility flags *)

Lemma dispatch_agree fuel fuel' handler (w w1 w2 : World R) :
  dispatch serve rand fuel handler w = Some w1 →
  dispatch serve rand fuel' handler w = Some w2 →
  w1 = w2.
Proof.
  intros H1 H2.
  apply (dispatch_mono _ (fuel `max` fuel')) in H1; [|lia].
  apply (dispatch_mono _ (fuel `max` fuel')) in H2; [|lia].
  congruence.
Qed.

(** Every handler completes within three turns of the loop, and only the
    visibility button writes [showPasswords]. *)
Lemma dispatch_handler_showPasswords e (w : World R) :
  ∃ w', dispatch serve rand 3 (handler e) w = Some w'
        ∧ showPasswords (st w') =
            match e with
            | EvToggle password =>
                toggle (Password.id password) (showPasswords (st w))
            | _ => showPasswords (st w)
            end.
Proof.
  destruct e;
    try (eexists; split; [apply dispatch_generatePassword; lia|reflexivity]);
    unfold dispatch; cbn [handler];
    try (unfold handleSubmit; destruct (editingPassword (st w)));
    run; eexists; (split; reflexivity).
Qed.

(** A session in which the visibility button of [id] is never clicked
    runs to its end and leaves the flag of [id] reading as it did. *)
Lemma run_events_hidden fuel es (w : World R) id (flag : bool) :
  3 ≤ fuel →
  revealed (st w) id = flag →
  Forall (λ e, ¬ toggles id e) es →
  ∃ w', run_events serve rand fuel es w = Some w'
        ∧ revealed (st w') id = flag.
Proof.
  intros Hfuel Hhidden Hes. revert w Hhidden.
  induction Hes as [|e es He _ IH]; intros w Hhidden.
  - exists w. split; [reflexivity | exact Hhidden].
  - destruct (dispatch_handler_showPasswords e w) as (w1 & Hrun & Hshow).
    apply (dispatch_mono _ fuel) in Hrun; [|exact Hfuel].
    cbn [run_events]. rewrite Hrun. apply IH.
    unfold revealed in *. rewrite Hshow.
    destruct e; try exact Hhidden.
    rewrite truthy_toggle_ne; [exact Hhidden | exact He].
Qed.

(** X17. Two clicks in a row on the visibility button of [id] bring the
    flag of [id], and of every other id, back to the truthiness it read with
    before; each click changes nothing but [showPasswords] and sends no
    request; and from mount on, the flag of an id whose button was never
    clicked reads hidden exactly when [id] is not the name of a property
    inherited from [Object.prototype]. *)
Theorem togglePasswordVisibility_twice fuel (w : World R) id :
  1 ≤ fuel →
  ∃ w1 w2,
    dispatch serve rand fuel (λ _, togglePasswordVisibility id) w = Some w1
    ∧ dispatch serve rand fuel (λ _, togglePasswordVisibility id) w1 = Some w2
    ∧ revealed (st w1) id = negb (revealed (st w) id)
    ∧ (∀ id', revealed (st w2) id' = revealed (st w) id')
    ∧ st w1 = set_showPasswords (toggle id (showPasswords (st w))) (st w)
    ∧ (outside w1, sent w1, remote w1, draws w1)
      = (outside w, sent w, remote w, draws w)
    ∧ sent w2 = sent w
    ∧ ∀ fuel' r0 es,
        3 ≤ fuel' →
        Forall (λ e, ¬ toggles id e) es →
        ∃ w', run_events serve rand fuel' es (mounted r0) = Some w'
              ∧ revealed (st w') id = inherited id.
Proof.
  intros Hfuel. destruct fuel as [|fuel]; [lia|].
  do 2 eexists. unfold dispatch. cbn [settle]. unfold turn. cbn.
  split; [destruct fuel; reflexivity|].
  split; [destruct fuel; reflexivity|].
  unfold revealed. cbn.
  split; [apply truthy_toggle_eq|].
  split; [intros id'; apply truthy_toggle_toggle|].
  repeat split.
  intros fuel' r0 es Hfuel' Hes.
  apply run_events_hidden; [exact Hfuel' | | exact Hes].
  unfold revealed, get. cbn. destruct (inherited id); reflexivity.
Qed.

(** ** The other paths of [handleSubmit] and [deletePassword] *)

(** X1. When the update request of the edit branch succeeds, the record under
    edit is cleared, the form is emptied, and the list request follows the
    update; [passwords] becomes the listed rows, or keeps its value when
    listing fails, in which case a failure toast follows the success toast. *)
Theorem handleSubmit_update_success fuel (w : World R) editing resp r' :
  3 ≤ fuel →
  editingPassword (st w) = Some editing →
  serve (QUpdate "passwords" (formData (st w)) "id" (Password.id editing))
    (remote w) = (resp, r') →
  error resp = None →
  ∃ w', dispatch serve rand fuel handleSubmit w = Some w'
        ∧ editingPassword (st w') = None
        ∧ formData (st w') = FormData.empty
        ∧ isAddDialogOpen (st w') = isAddDialogOpen (st w)
        ∧ showPasswords (st w') = showPasswords (st w)
        ∧ loading (st w') = false
        ∧ sent w' =
            sent w ++ [QUpdate "passwords" (formData (st w)) "id"
                         (Password.id editing);
                       list_request]
        ∧ ∀ listed r'',
            serve list_request r' = (listed, r'') →
            passwords (st w') =
              match error listed with
              | Some _ => passwords (st w)
              | None => or_nil (data listed)
              end
            ∧ toasts (outside w') =
                toasts (outside w) ++
                {| title := "Password updated successfully";
                   description := None; variant := None |}
                :: match error listed with
                   | Some _ =>
                       [{| title := "Error";
                           description := Some "Failed to load passwords";
                           variant := Some "destructive" |}]
                   | None => []
                   end.
Proof.
  intros Hfuel Hedit Hserve Herror.
  apply (dispatch_enough 3); [exact Hfuel|].
  unfold dispatch, handleSubmit. rewrite Hedit.
  cbn [settle]; unfold turn; cbn.
  rewrite Hserve; cbn. rewrite Herror; cbn.
  destruct (serve (QSelect "passwords" "*" "created_at" false) r')
    as [listed r''] eqn:Hlist; cbn.
  destruct (error listed) eqn:Hlisted; cbn;
    (eexists; split; [reflexivity|]); cbn;
    rewrite <- !app_assoc; cbn; repeat split;
    unfold list_request in *; rewrite Hlist in *;
    match goal with H : (_, _) = (_, _) |- _ => injection H as <- <- end;
    rewrite Hlisted; reflexivity.
Qed.

(** X2. When the delete request fails, the component state is untouched:
    the record stays in [passwords], nothing else is sent and one destructive
    toast is shown. *)
Theorem deletePassword_failure fuel (w : World R) id resp r' e :
  2 ≤ fuel →
  serve (QDelete "passwords" "id" id) (remote w) = (resp, r') →
  error resp = Some e →
  ∃ w', dispatch serve rand fuel (λ _, deletePassword id) w = Some w'
        ∧ st w' = st w
        ∧ sent w' = sent w ++ [QDelete "passwords" "id" id]
        ∧ toasts (outside w') =
            toasts (outside w) ++
            [{| title := "Error";
                description := Some "Failed to delete password";
                variant := Some "destructive" |}].
Proof.
  intros Hfuel Hserve Herror.
  apply (dispatch_enough 2); [exact Hfuel|].
  unfold dispatch, deletePassword.
  cbn [settle]; unfold turn; cbn.
  rewrite Hserve; cbn. rewrite Herror; cbn.
  eexists; split; [reflexivity|]. cbn. repeat split.
Qed.

(** X3. When the delete request succeeds, the list request follows it and
    the record leaves the view only through the listed rows: if listing
    fails, [passwords] still holds the deleted record.  No other field
    changes but [loading]. *)
Theorem deletePassword_success fuel (w : World R) id resp r' :
  3 ≤ fuel →
  serve (QDelete "passwords" "id" id) (remote w) = (resp, r') →
  error resp = None →
  ∃ w', dispatch serve rand fuel (λ _, deletePassword id) w = Some w'
        ∧ sent w' = sent w ++ [QDelete "passwords" "id" id; list_request]
        ∧ ∀ listed r'',
            serve list_request r' = (listed, r'') →
            st w' =
              set_loading false
                (match error listed with
                 | Some _ => st w
                 | None => set_passwords (or_nil (data listed)) (st w)
                 end)
            ∧ toasts (outside w') =
                toasts (outside w) ++
                {| title := "Password deleted";
                   description := None; variant := None |}
                :: match error listed with
                   | Some _ =>
                       [{| title := "Error";
                           description := Some "Failed to load passwords";
                           variant := Some "destructive" |}]
                   | None => []
                   end.
Proof.
  intros Hfuel Hserve Herror.
  apply (dispatch_enough 3); [exact Hfuel|].
  unfold dispatch, deletePassword.
  cbn [settle]; unfold turn; cbn.
  rewrite Hserve; cbn. rewrite Herror; cbn.
  destruct (serve (QSelect "passwords" "*" "created_at" false) r')
    as [listed r''] eqn:Hlist; cbn.
  destruct (error listed) eqn:Hlisted; cbn;
    (eexists; split; [reflexivity|]); cbn;
    rewrite <- !app_assoc; cbn; (split; [reflexivity|]);
    intros ? ?; unfold list_request; rewrite Hlist;
    intros [= <- <-]; rewrite Hlisted; split; reflexivity.
Qed.

(** ** Sign-out and clipboard *)

(** X4. [handleSignOut] calls [onSignOut] after the sign-out request has been
    answered, whatever the answer: an error is neither tested nor shown, and
    the component state is untouched. *)
Theorem handleSignOut_ignores_error fuel (w : World R) :
  2 ≤ fuel →
  ∃ w', dispatch serve rand fuel (λ _, handleSignOut) w = Some w'
        ∧ signedOut (outside w') = true
        ∧ toasts (outside w') = toasts (outside w)
        ∧ st w' = st w
        ∧ sent w' = sent w ++ [AuthSignOut]
        ∧ remote w' = (serve AuthSignOut (remote w)).2.
Proof.
  intros Hfuel. apply (dispatch_enough 2); [exact Hfuel|].
  unfold dispatch, handleSignOut.
  cbn [settle]; unfold turn; cbn.
  destruct (serve AuthSignOut (remote w)) as [resp r'] eqn:Hserve; cbn.
  eexists; split; [reflexivity|]. cbn. repeat split.
Qed.

(** X5. Copying the password of a card puts the stored password on the
    clipboard whether the card shows it or masks it, and shows a toast naming
    what was copied; what is rendered does not change and nothing is sent. *)
Theorem copy_password_while_masked fuel (w : World R) (p : Password.t) :
  1 ≤ fuel →
  ∃ w', dispatch serve rand fuel (handler (EvCopyPassword p)) w = Some w'
        ∧ clipboard (outside w') = Some (Password.password p)
        ∧ toasts (outside w') =
            toasts (outside w) ++
            [{| title := "Password copied to clipboard";
                description := None; variant := None |}]
        ∧ render (st w') = render (st w)
        ∧ card (st w') p = card (st w) p
        ∧ sent w' = sent w.
Proof.
  intros Hfuel. apply (dispatch_enough 1); [exact Hfuel|].
  eexists; split; [reflexivity|]. cbn. repeat split.
Qed.

(** ** What every handler does and never does *)

Ltac sent_eq :=
  first [ symmetry; apply app_nil_r
        | reflexivity
        | rewrite <- app_assoc; reflexivity ].

Ltac request_shape :=
  first [ left; reflexivity
        | right; left; reflexivity
        | right; right; left; reflexivity
        | right; right; right; eexists;
          (split; [|first [left; reflexivity | right; reflexivity]]);
          exact I ].

Ltac passwords_source :=
  first [ left; reflexivity
        | right; do 3 eexists; split; [eassumption|];
          split; [eassumption|]; split; reflexivity ].

(** One event, from start to end: the requests it adds, where [passwords]
    may come from, and what it does to [loading]. *)
Lemma dispatch_handler_effects e (w : World R) :
  ∃ w' new,
    dispatch serve rand 3 (handler e) w = Some w'
    ∧ sent w' = sent w ++ new
    ∧ (new = [] ∨ new = [list_request] ∨ new = [AuthSignOut]
       ∨ ∃ m, is_mutation m ∧ (new = [m] ∨ new = [m; list_request]))
    ∧ (passwords (st w') = passwords (st w)
       ∨ ∃ r listed r',
           serve list_request r = (listed, r')
           ∧ error listed = None
           ∧ remote w' = r'
           ∧ passwords (st w') = or_nil (data listed))
    ∧ (loading (st w') = false ∨ loading (st w') = loading (st w)).
Proof.
  destruct e;
    try (do 2 eexists; split; [apply dispatch_generatePassword; lia|];
         cbn -[picks]; split; [sent_eq|]; split; [request_shape|];
         split; [left; reflexivity | right; reflexivity]);
    unfold dispatch; cbn [handler];
    try (unfold handleSubmit; destruct (editingPassword (st w)));
    run; do 2 eexists; (split; [reflexivity|]); cbn;
    (split; [sent_eq|]); (split; [request_shape|]);
    (split; [passwords_source|]);
    first [left; reflexivity | right; reflexivity].
Qed.

(** An invariant kept by every event is kept by every session, and every
    session runs to its end. *)
Lemma run_events_invariant (P : World R → Prop) fuel es (w : World R) :
  3 ≤ fuel →
  (∀ e w1 w2,
     e ∈ es → P w1 →
     dispatch serve rand 3 (handler e) w1 = Some w2 → P w2) →
  P w →
  ∃ w', run_events serve rand fuel es w = Some w' ∧ P w'.
Proof.
  intros Hfuel. revert w.
  induction es as [|e es IH]; intros w Hstep HP.
  - exists w. split; [reflexivity | exact HP].
  - destruct (dispatch_handler_showPasswords e w) as (w1 & Hrun & _).
    assert (HP1 : P w1) by (eapply Hstep; [left | exact HP | exact Hrun]).
    apply (dispatch_mono _ fuel) in Hrun; [|exact Hfuel].
    cbn [run_events]. rewrite Hrun. apply IH; [|exact HP1].
    intros e' w2 w3 He'. apply Hstep. right. exact He'.
Qed.

(** X6. Handling one event sends at most two requests: nothing, the list
    request alone, the sign-out request alone, or one write to the table
    followed at most by the list request.  No event writes twice or lists
    twice. *)
Theorem event_sends_at_most_two_requests fuel e (w : World R) :
  3 ≤ fuel →
  ∃ w' new,
    dispatch serve rand fuel (handler e) w = Some w'
    ∧ sent w' = sent w ++ new
    ∧ (new = [] ∨ new = [list_request] ∨ new = [AuthSignOut]
       ∨ ∃ m, is_mutation m ∧ (new = [m] ∨ new = [m; list_request])).
Proof.
  intros Hfuel.
  destruct (dispatch_handler_effects e w) as (w' & new & Hrun & Hsent & Hnew & _).
  exists w', new. split; [|split; assumption].
  exact (dispatch_mono _ _ _ _ _ Hrun Hfuel).
Qed.

(** X7. No event patches [passwords] locally: after any event the list is
    either what it was, or exactly the rows of a list response without error
    that the remote gave during that event. *)
Theorem passwords_only_from_list_response fuel e (w : World R) :
  3 ≤ fuel →
  ∃ w',
    dispatch serve rand fuel (handler e) w = Some w'
    ∧ (passwords (st w') = passwords (st w)
       ∨ ∃ r listed r',
           serve list_request r = (listed, r')
           ∧ error listed = None
           ∧ remote w' = r'
           ∧ passwords (st w') = or_nil (data listed)).
Proof.
  intros Hfuel.
  destruct (dispatch_handler_effects e w)
    as (w' & new & Hrun & _ & _ & Hpasswords & _).
  exists w'. split; [|exact Hpasswords].
  exact (dispatch_mono _ _ _ _ _ Hrun Hfuel).
Qed.

(** X8. [loading] never returns to true: a session started with
    [loading = false] ends with it false, and a session whose first event is
    the mount effect ends with it false whatever the list request answered;
    in both cases the loading line is not what is rendered. *)
Theorem loading_never_returns fuel es (w : World R) :
  3 ≤ fuel →
  (loading (st w) = false →
   ∃ w', run_events serve rand fuel es w = Some w'
         ∧ loading (st w') = false
         ∧ render (st w') ≠ LoadingScreen)
  ∧ (∃ w', run_events serve rand fuel (EvMount :: es) w = Some w'
           ∧ loading (st w') = false
           ∧ render (st w') ≠ LoadingScreen).
Proof.
  intros Hfuel.
  assert (Hkeep : ∀ w0 : World R,
             loading (st w0) = false →
             ∃ w', run_events serve rand fuel es w0 = Some w'
                   ∧ loading (st w') = false
                   ∧ render (st w') ≠ LoadingScreen).
  { intros w0 Hw0.
    destruct (run_events_invariant (λ w1, loading (st w1) = false) fuel es w0)
      as (w' & Hrun & Hload); [exact Hfuel| |exact Hw0|].
    - intros e w1 w2 _ Hw1 Hrun.
      destruct (dispatch_handler_effects e w1)
        as (w2' & new & Hrun' & _ & _ & _ & Hload).
      rewrite Hrun in Hrun'. injection Hrun' as <-.
      destruct Hload as [Hload | Hload]; congruence.
    - exists w'. split; [exact Hrun|]. split; [exact Hload|].
      unfold render. rewrite Hload. discriminate. }
  split; [apply Hkeep|].
  assert (Hmount : ∃ w1, dispatch serve rand 3 (handler EvMount) w = Some w1
                         ∧ loading (st w1) = false)
    by (run; eexists; (split; reflexivity)).
  destruct Hmount as (w1 & Hrun & Hload).
  apply (dispatch_mono _ fuel) in Hrun; [|exact Hfuel].
  cbn [run_events]. rewrite Hrun. apply Hkeep, Hload.
Qed.

(** X9. Only a click on a visibility button writes [showPasswords]: a
    session without such a click leaves the whole map as it was, so the flag
    of a record outlives a refresh and the deletion of the record. *)
Theorem showPasswords_only_toggled fuel es (w : World R) :
  3 ≤ fuel →
  Forall (λ e, ∀ p, e ≠ EvToggle p) es →
  ∃ w', run_events serve rand fuel es w = Some w'
        ∧ showPasswords (st w') = showPasswords (st w).
Proof.
  intros Hfuel Hes.
  apply (run_events_invariant
           (λ w1, showPasswords (st w1) = showPasswords (st w)));
    [exact Hfuel | | reflexivity].
  intros e w1 w2 He Hw1 Hrun.
  destruct (dispatch_handler_showPasswords e w1) as (w2' & Hrun' & Hshow).
  rewrite Hrun in Hrun'. injection Hrun' as <-.
  rewrite Forall_forall in Hes. specialize (Hes e He).
  destruct e; try (rewrite Hshow; exact Hw1).
  exfalso. eapply Hes. reflexivity.
Qed.

(** ** Sessions *)

Lemma run_events_mono fuel fuel' es (w w' : World R) :
  run_events serve rand fuel es w = Some w' →
  fuel ≤ fuel' →
  run_events serve rand fuel' es w = Some w'.
Proof.
  intros Hrun Hle. revert w Hrun.
  induction es as [|e es IH]; intros w Hrun; [exact Hrun|].
  cbn [run_events] in *.
  destruct (dispatch serve rand fuel (handler e) w) as [w1|] eqn:Hstep;
    [|discriminate].
  rewrite (dispatch_mono _ _ _ _ _ Hstep Hle). apply IH, Hrun.
Qed.

(** X10. Clicking the edit button of a record and submitting at once sends
    an update whose payload is that record's own fields (notes as [""] when
    absent) and whose target is that record's id; it is the first request
    sent, followed at most by the list request, and the form ends empty. *)
Theorem edit_then_submit fuel (w : World R) (p : Password.t) :
  3 ≤ fuel →
  ∃ w' rest,
    run_events serve rand fuel [EvEdit p; EvSubmit] w = Some w'
    ∧ sent w' =
        sent w ++ QUpdate "passwords" (form_of p) "id" (Password.id p) :: rest
    ∧ (rest = [] ∨ rest = [list_request])
    ∧ formData (st w') = FormData.empty.
Proof.
  intros Hfuel.
  cut (∃ w' rest,
         run_events serve rand 3 [EvEdit p; EvSubmit] w = Some w'
         ∧ sent w' =
             sent w ++
             QUpdate "passwords" (form_of p) "id" (Password.id p) :: rest
         ∧ (rest = [] ∨ rest = [list_request])
         ∧ formData (st w') = FormData.empty).
  { intros (w' & rest & Hrun & H). exists w', rest. split; [|exact H].
    exact (run_events_mono _ _ _ _ _ Hrun Hfuel). }
  cbn [run_events]. run; do 2 eexists; (split; [reflexivity|]); cbn;
    (split; [sent_eq|]);
    (split; [first [left; reflexivity | right; reflexivity] | reflexivity]).
Qed.

(** X11. Cancelling an edit clears the record under edit but not the form:
    the inputs keep the record's fields, and a submit that follows inserts
    them as a new record. *)
Theorem edit_cancel_keeps_form fuel (w : World R) (p : Password.t) :
  3 ≤ fuel →
  (∃ w1, run_events serve rand fuel [EvEdit p; EvCancel] w = Some w1
         ∧ editingPassword (st w1) = None
         ∧ formData (st w1) = form_of p
         ∧ sent w1 = sent w)
  ∧ (∃ w' rest,
       run_events serve rand fuel [EvEdit p; EvCancel; EvSubmit] w = Some w'
       ∧ sent w' = sent w ++ QInsert "passwords" [form_of p] :: rest
       ∧ (rest = [] ∨ rest = [list_request])).
Proof.
  intros Hfuel. split.
  - exists (on_state (set_editingPassword None)
              (on_state (set_formData (form_of p))
                 (on_state (set_editingPassword (Some p)) w))).
    split; [|repeat split].
    apply (run_events_mono 3); [reflexivity | exact Hfuel].
  - cut (∃ w' rest,
           run_events serve rand 3 [EvEdit p; EvCancel; EvSubmit] w = Some w'
           ∧ sent w' = sent w ++ QInsert "passwords" [form_of p] :: rest
           ∧ (rest = [] ∨ rest = [list_request])).
    { intros (w' & rest & Hrun & H). exists w', rest. split; [|exact H].
      exact (run_events_mono _ _ _ _ _ Hrun Hfuel). }
    cbn [run_events]. run; do 2 eexists; (split; [reflexivity|]); cbn;
      (split; [sent_eq|]);
      first [left; reflexivity | right; reflexivity].
Qed.

(** X12. What is typed is what is sent: after the four inputs have been
    changed, a submit sends exactly the four typed values, as an update of
    the record under edit or else as an insert, whatever the form held
    before; the form ends empty. *)
Theorem typed_form_is_payload fuel (w : World R) (a b c d : string) :
  3 ≤ fuel →
  ∃ w' rest,
    run_events serve rand fuel
      [EvWebsiteChange a; EvUsernameChange b; EvPasswordChange c;
       EvNotesChange d; EvSubmit] w = Some w'
    ∧ sent w' =
        sent w ++
        match editingPassword (st w) with
        | Some p =>
            QUpdate "passwords"
              {| FormData.website := a; FormData.username := b;
                 FormData.password := c; FormData.notes := d |}
              "id" (Password.id p)
        | None =>
            QInsert "passwords"
              [{| FormData.website := a; FormData.username := b;
                  FormData.password := c; FormData.notes := d |}]
        end :: rest
    ∧ (rest = [] ∨ rest = [list_request])
    ∧ formData (st w') = FormData.empty.
Proof.
  intros Hfuel.
  cut (∃ w' rest,
         run_events serve rand 3
           [EvWebsiteChange a; EvUsernameChange b; EvPasswordChange c;
            EvNotesChange d; EvSubmit] w = Some w'
         ∧ sent w' =
             sent w ++
             match editingPassword (st w) with
             | Some p =>
                 QUpdate "passwords"
                   {| FormData.website := a; FormData.username := b;
                      FormData.password := c; FormData.notes := d |}
                   "id" (Password.id p)
             | None =>
                 QInsert "passwords"
                   [{| FormData.website := a; FormData.username := b;
                       FormData.password := c; FormData.notes := d |}]
             end :: rest
         ∧ (rest = [] ∨ rest = [list_request])
         ∧ formData (st w') = FormData.empty).
  { intros (w' & rest & Hrun & H). exists w', rest. split; [|exact H].
    exact (run_events_mono _ _ _ _ _ Hrun Hfuel). }
  cbn [run_events]. unfold dispatch; cbn [handler settle]; unfold turn; cbn.
  unfold handleSubmit; cbn.
  destruct (editingPassword (st w)); cbn; repeat (answer; cbn);
    do 2 eexists; (split; [reflexivity|]); cbn;
    (split; [sent_eq|]);
    (split; [first [left; reflexivity | right; reflexivity] | reflexivity]).
Qed.

(** X13. A second click on Generate overwrites the first secret with one
    computed from the next sixteen draws only: no draw is used twice, and
    nothing of the first secret remains.  Nothing is sent or shown. *)
Theorem generatePassword_again fuel (w : World R) :
  1 ≤ fuel →
  (∀ n, unit_double (rand n)) →
  ∃ w', run_events serve rand fuel [EvGenerate; EvGenerate] w = Some w'
        ∧ draws w' = draws w + 32
        ∧ String.length (FormData.password (formData (st w'))) = 16
        ∧ (∀ i, i < 16 →
             String.get i (FormData.password (formData (st w'))) =
             String.get
               (Z.to_nat (floor_scaled (rand (draws w + 16 + i))
                            (String.length chars)))
               chars)
        ∧ sent w' = sent w
        ∧ outside w' = outside w.
Proof.
  intros Hfuel rand_unit.
  cbn [run_events]. change (handler EvGenerate) with generatePassword.
  rewrite dispatch_generatePassword by exact Hfuel.
  rewrite dispatch_generatePassword by exact Hfuel.
  eexists. split; [reflexivity|].
  cbn [st formData set_formData FormData.with_password FormData.password
         draws sent outside].
  destruct (picks_spec 16 rand_unit (draws w + 16) "") as (Hlen & _ & Hget).
  split; [lia|]. split; [exact Hlen|]. split; [|split; reflexivity].
  intros i Hi. exact (Hget i Hi).
Qed.

(** ** What is rendered *)

(** X14. After mount, a list request that fails and one that returns no row
    lead to the same screen: the vault with the placeholder card, both
    dialogs closed and empty inputs.  Only the toast tells them apart. *)
Theorem failed_load_renders_empty_vault fuel (r0 : R) listed r' :
  2 ≤ fuel →
  serve list_request r0 = (listed, r') →
  is_Some (error listed) ∨ or_nil (data listed) = [] →
  ∃ w', dispatch serve rand fuel (handler EvMount) (mounted r0) = Some w'
        ∧ render (st w') = VaultScreen false EmptyCard false FormData.empty
        ∧ toasts (outside w') =
            match error listed with
            | Some _ =>
                [{| title := "Error";
                    description := Some "Failed to load passwords";
                    variant := Some "destructive" |}]
            | None => []
            end.
Proof.
  intros Hfuel Hserve Hlisted.
  apply (dispatch_enough 2); [exact Hfuel|].
  unfold dispatch, list_request in *. cbn [settle]; unfold turn; cbn.
  rewrite Hserve; cbn.
  destruct (error listed) as [e|] eqn:Herror; cbn.
  - eexists; split; [reflexivity|]. split; reflexivity.
  - destruct Hlisted as [[e [=]] | Hrows].
    eexists; split; [reflexivity|]. cbn. rewrite Hrows. split; reflexivity.
Qed.

(** With no entry in [showPasswords], a card shows the mask unless its id
    reads an inherited property. *)
Lemma card_secret_fresh (s : State) (p : Password.t) :
  showPasswords s = ∅ →
  card_secret (card s p) =
  if inherited (Password.id p) then Password.password p else mask.
Proof.
  intros Hshow. unfold card, revealed, get. cbn [card_secret].
  rewrite Hshow, lookup_empty.
  destruct (inherited (Password.id p)); reflexivity.
Qed.

Lemma card_secrets_fresh (s : State) (l : list Password.t) :
  showPasswords s = ∅ →
  card_secret <$> (card s <$> l) =
  (λ p, if inherited (Password.id p) then Password.password p else mask)
  <$> l.
Proof.
  intros Hshow. induction l as [|p l IH]; [reflexivity|].
  cbn [fmap list_fmap]. rewrite card_secret_fresh by exact Hshow.
  f_equal. exact IH.
Qed.

(** X15. After a first load that lists at least one row, the grid shows one
    card per row, in the order listed; the secret line of a card is the
    mask, except for a row whose id is the name of a property inherited from
    [Object.prototype], whose card shows the stored password. *)
Theorem first_load_secret_lines fuel (r0 : R) listed r' row rows :
  2 ≤ fuel →
  serve list_request r0 = (listed, r') →
  error listed = None →
  data listed = Some (row :: rows) →
  ∃ w' cards,
    dispatch serve rand fuel (handler EvMount) (mounted r0) = Some w'
    ∧ render (st w') = VaultScreen false (CardGrid cards) false FormData.empty
    ∧ card_key <$> cards = Password.id <$> (row :: rows)
    ∧ card_secret <$> cards =
        (λ p, if inherited (Password.id p)
              then Password.password p else mask) <$> (row :: rows)
    ∧ (Forall (λ p, inherited (Password.id p) = false) (row :: rows) →
       Forall (λ c, card_secret c = mask) cards).
Proof.
  intros Hfuel Hserve Herror Hdata.
  cut (∃ w' cards,
         dispatch serve rand 2 (handler EvMount) (mounted r0) = Some w'
         ∧ render (st w') =
             VaultScreen false (CardGrid cards) false FormData.empty
         ∧ card_key <$> cards = Password.id <$> (row :: rows)
         ∧ card_secret <$> cards =
             (λ p, if inherited (Password.id p)
                   then Password.password p else mask) <$> (row :: rows)
         ∧ (Forall (λ p, inherited (Password.id p) = false) (row :: rows) →
            Forall (λ c, card_secret c = mask) cards)).
  { intros (w' & cards & Hrun & H). exists w', cards. split; [|exact H].
    exact (dispatch_mono _ _ _ _ _ Hrun Hfuel). }
  unfold dispatch, list_request in *. cbn [settle]; unfold turn; cbn.
  rewrite Hserve; cbn. rewrite Herror; cbn.
  do 2 eexists; split; [reflexivity|].
  unfold render. cbn [st on_state loading set_loading set_passwords passwords
                        isAddDialogOpen editingPassword formData initialState].
  rewrite Hdata. cbn [or_nil default].
  split; [reflexivity|].
  split; [|split].
  - rewrite <- list_fmap_compose. reflexivity.
  - apply card_secrets_fresh. reflexivity.
  - intros Hids. apply Forall_fmap. eapply Forall_impl; [exact Hids|].
    intros p Hp. cbn [compose].
    rewrite card_secret_fresh by reflexivity. rewrite Hp. reflexivity.
Qed.

(** X16. A click on the visibility button of a record flips the secret line
    of its card between the mask and the stored password, and leaves the
    card of every record with another id, and the list itself, as they
    were. *)
Theorem toggle_flips_card_secret fuel (w : World R) (p : Password.t) :
  1 ≤ fuel →
  ∃ w', dispatch serve rand fuel (handler (EvToggle p)) w = Some w'
        ∧ card_secret (card (st w') p) =
            (if revealed (st w) (Password.id p)
             then mask else Password.password p)
        ∧ (∀ q, Password.id q ≠ Password.id p →
                card (st w') q = card (st w) q)
        ∧ passwords (st w') = passwords (st w)
        ∧ sent w' = sent w.
Proof.
  intros Hfuel. apply (dispatch_enough 1); [exact Hfuel|].
  eexists; split; [reflexivity|].
  unfold card, revealed. cbn.
  split.
  - rewrite truthy_toggle_eq.
    destruct (truthy (get (showPasswords (st w)) (Password.id p)));
      reflexivity.
  - split; [|split; reflexivity].
    intros q Hq. rewrite truthy_toggle_ne by congruence. reflexivity.
Qed.

End Properties.

(** * The properties on sample runs *)

(** A failed insert and a successful update followed by a failed refresh
    both end with an empty form. *)
Lemma handleSubmit_resets_formData_witness :
  3 ≤ 3
  ∧ (∃ w1 tasks,
       finish scripted sample_rand 3
         (handleSubmit (st (sample_world (Some sample_password) [success None])))
         (sample_world (Some sample_password) [success None])
       = Some (w1, tasks)
       ∧ formData (st w1) = FormData.empty)
  ∧ (∃ w', dispatch scripted sample_rand 3 handleSubmit
             (sample_world (Some sample_password) [success None]) = Some w'
           ∧ formData (st w') = FormData.empty).
Proof.
  split; [lia|].
  apply (handleSubmit_resets_formData scripted sample_rand 3
           (st (sample_world (Some sample_password) [success None]))
           (sample_world (Some sample_password) [success None])).
  lia.
Defined.

(** C2 as written fails: after a failed update the form typed by the user
    is gone, so the state is not what it was. *)
Lemma update_failure_clears_formData :
  ¬ update_failure_keeps_state scripted sample_rand 3
      (sample_world (Some sample_password) [failure]).
Proof.
  intros Hkeeps.
  specialize (Hkeeps sample_password (mkError "permission denied") _
                eq_refl eq_refl eq_refl).
  apply (f_equal (λ s, FormData.website (formData s))) in Hkeeps.
  vm_compute in Hkeeps. discriminate Hkeeps.
Qed.

(** The world reached on that run. *)
Example handleSubmit_update_failure_sample :
  dispatch scripted sample_rand 3 handleSubmit
    (sample_world (Some sample_password) [failure])
  = Some (mkWorld
            {| passwords := [sample_password];
               loading := false;
               showPasswords := ∅;
               isAddDialogOpen := true;
               editingPassword := Some sample_password;
               formData := FormData.empty |}
            (mkOutside
               [{| title := "Error";
                   description := Some "Failed to update password";
                   variant := Some "destructive" |}]
               None false)
            [QUpdate "passwords" sample_form "id" "7f3a"] [] 0).
Proof. reflexivity. Qed.

Lemma handleSubmit_update_failure_witness :
  ∃ w', dispatch scripted sample_rand 2 handleSubmit
          (sample_world (Some sample_password) [failure]) = Some w'
        ∧ passwords (st w') = [sample_password]
        ∧ editingPassword (st w') = Some sample_password
        ∧ formData (st w') = FormData.empty.
Proof.
  destruct (handleSubmit_update_failure scripted sample_rand 2
              (sample_world (Some sample_password) [failure])
              sample_password failure [] (mkError "permission denied"))
    as (w' & Hrun & Hpasswords & Hediting & Hform & _);
    [lia | reflexivity | reflexivity | reflexivity |].
  exists w'. repeat split; assumption.
Defined.

(** C3 as written fails on the size of the alphabet: no 73 distinct
    characters make up what the generator draws from. *)
Lemma alphabet_size_not_73 : ¬ alphabet_size 73.
Proof.
  intros (l & Hlen & Hnodup & Hsame).
  assert (Hperm : l ≡ₚ alphabet)
    by (apply NoDup_Permutation; [exact Hnodup | exact alphabet_NoDup | exact Hsame]).
  apply Permutation_length in Hperm.
  rewrite Hlen, alphabet_length in Hperm. discriminate Hperm.
Qed.

Lemma generatePassword_shape_witness :
  ∃ w', dispatch scripted sample_rand 1 generatePassword (mounted []) = Some w'
        ∧ String.length (FormData.password (formData (st w'))) = 16
        ∧ ∀ i, i < 16 →
            ∃ c, String.get i (FormData.password (formData (st w'))) = Some c
                 ∧ c ∈ alphabet.
Proof.
  destruct (generatePassword_shape scripted sample_rand 1 (mounted []))
    as (w' & Hrun & Hlen & Hchars & _);
    [lia | exact sample_rand_unit |].
  exists w'. split; [exact Hrun|]. split; [exact Hlen|].
  intros i Hi. destruct (Hchars i Hi) as (c & Hget & Hin & _).
  exists c. split; assumption.
Defined.

(** The first sample draw is one whose product rounds up to an integer: the
    index is 40 where the integer part of the exact product is 39. *)
Example rounded_product_index :
  floor_scaled (binary_normalize 53 1024 2573485501354569 (-52) false) 70
  = 40%Z
  ∧ Qfloor
      (draw_value (binary_normalize 53 1024 2573485501354569 (-52) false)
       * 70) = 39%Z.
Proof. split; vm_compute; reflexivity. Qed.

(** On the sample draws the generated secret is this one. *)
Example generatePassword_sample :
  dispatch scripted sample_rand 1 generatePassword (mounted []) =
  Some (mkWorld
          (set_formData
             {| FormData.website := ""; FormData.username := "";
                FormData.password := "oJ%bD5Go@PGdQmEn";
                FormData.notes := "" |}
             initialState)
          (mkOutside [] None false) [] [] 16).
Proof. vm_compute. reflexivity. Qed.

(** A store holding one record, then an empty store. *)
Lemma fetchPasswords_replaces_passwords_witness :
  ∃ w', dispatch scripted sample_rand 2 (λ _, fetchPasswords)
          (sample_world None [success (Some [])]) = Some w'
        ∧ passwords (st w') = []
        ∧ toasts (outside w') = [].
Proof.
  destruct (fetchPasswords_replaces_passwords scripted sample_rand 2
              (sample_world None [success (Some [])]) (success (Some [])) [])
    as (w' & Hrun & _ & _ & Hempty & Htoasts);
    [lia | reflexivity | reflexivity |].
  exists w'. split; [exact Hrun|]. split; [|exact Htoasts].
  apply Hempty. left. reflexivity.
Defined.

Lemma fetchPasswords_failure_keeps_passwords_witness :
  ∃ w', dispatch scripted sample_rand 2 (λ _, fetchPasswords)
          (sample_world None [failure]) = Some w'
        ∧ passwords (st w') = [sample_password].
Proof.
  destruct (fetchPasswords_failure_keeps_passwords scripted sample_rand 2
              (sample_world None [failure]) failure []
              (mkError "permission denied"))
    as (w' & Hrun & Hpasswords & _);
    [lia | reflexivity | reflexivity |].
  exists w'. split; assumption.
Defined.

Lemma fetchPasswords_clears_loading_witness :
  (∃ w', dispatch scripted sample_rand 2 (λ _, fetchPasswords)
           (mounted [failure]) = Some w'
         ∧ loading (st w') = false)
  ∧ (∃ w', dispatch scripted sample_rand 2 (handler EvMount)
             (mounted [failure]) = Some w'
           ∧ loading (st w') = false).
Proof.
  apply (fetchPasswords_clears_loading scripted sample_rand 2
           (mounted [failure])).
  lia.
Defined.

(** A successful insert followed by a refresh that lists one record. *)
Lemma handleSubmit_create_witness :
  ∃ w', dispatch scripted sample_rand 3 handleSubmit
          (sample_world None [success None; success (Some [sample_password])])
        = Some w'
        ∧ isAddDialogOpen (st w') = false
        ∧ sent w' = [QInsert "passwords" [sample_form];
                     QSelect "passwords" "*" "created_at" false].
Proof.
  destruct (handleSubmit_create scripted sample_rand 3
              (sample_world None
                 [success None; success (Some [sample_password])])
              (success None) [success (Some [sample_password])])
    as (w' & Hrun & _ & Hsuccess);
    [lia | reflexivity | reflexivity |].
  destruct (Hsuccess eq_refl) as (Hclosed & Hsent & _).
  exists w'. repeat split; assumption.
Defined.

(** C7 at a record whose id is ["constructor"].  After the first load, with
    no click on any visibility button, the flag of that id reads the
    inherited function, which is truthy: the card shows the stored password
    where a never-toggled flag should read hidden; and the first click hides
    it instead of revealing it. *)
Theorem inherited_id_reads_revealed :
  ∃ w' w'',
    run_events scripted sample_rand 3 [EvMount]
      (mounted [success (Some [constructor_record])]) = Some w'
    ∧ showPasswords (st w') = ∅
    ∧ revealed (st w') "constructor" = true
    ∧ card_secret (card (st w') constructor_record) = "s3cret"
    ∧ run_events scripted sample_rand 3 [EvToggle constructor_record] w'
      = Some w''
    ∧ showPasswords (st w'') = {["constructor" := false]}
    ∧ card_secret (card (st w'') constructor_record) = mask.
Proof.
  do 2 eexists.
  split; [reflexivity|]. split; [reflexivity|].
  split; [reflexivity|]. split; [reflexivity|].
  split; [reflexivity|]. split; reflexivity.
Qed.

Lemma togglePasswordVisibility_twice_witness :
  ∃ w1 w2,
    dispatch scripted sample_rand 1 (λ _, togglePasswordVisibility "7f3a")
      (mounted []) = Some w1
    ∧ dispatch scripted sample_rand 1 (λ _, togglePasswordVisibility "7f3a")
        w1 = Some w2
    ∧ revealed (st w1) "7f3a" = true
    ∧ revealed (st w2) "7f3a" = false.
Proof.
  destruct (togglePasswordVisibility_twice scripted sample_rand 1
              (mounted []) "7f3a")
    as (w1 & w2 & Hrun1 & Hrun2 & Hflip & Hback & _); [lia|].
  exists w1, w2. repeat split; try assumption.
  rewrite Hback. reflexivity.
Defined.

(** After two clicks the flag reads as before, but the map has gained an
    entry: an id that had none now holds [false]. *)
Example toggle_twice_adds_entry :
  toggle "7f3a" (toggle "7f3a" ∅) = {["7f3a" := false]}.
Proof. rewrite toggle_toggle. reflexivity. Qed.

Lemma editClick_loads_form_witness :
  ∃ w', dispatch scripted sample_rand 1 (λ _, editClick sample_password)
          (mounted []) = Some w'
        ∧ editingPassword (st w') = Some sample_password
        ∧ formData (st w') =
            {| FormData.website := "example.com";
               FormData.username := "a@b.com";
               FormData.password := "x";
               FormData.notes := "" |}.
Proof.
  destruct (editClick_loads_form scripted sample_rand 1 (mounted [])
              sample_password)
    as (w' & Hrun & Hediting & Hform & _); [lia|].
  exists w'. repeat split; assumption.
Defined.

Lemma generatePassword_frame_witness :
  ∃ w', dispatch scripted sample_rand 1 generatePassword
          (sample_world None []) = Some w'
        ∧ FormData.website (formData (st w')) = "example.com"
        ∧ FormData.username (formData (st w')) = "a@b.com"
        ∧ FormData.notes (formData (st w')) = "work".
Proof.
  destruct (generatePassword_frame scripted sample_rand 1 (sample_world None []))
    as (w' & Hrun & Hwebsite & Husername & Hnotes & _); [lia|].
  exists w'. repeat split; assumption.
Defined.

(** ** Sample runs of the other paths *)

(** A successful update followed by a refresh that lists the record. *)
Lemma handleSubmit_update_success_witness :
  ∃ w', dispatch scripted sample_rand 3 handleSubmit
          (sample_world (Some sample_password)
             [success None; success (Some [sample_password])]) = Some w'
        ∧ editingPassword (st w') = None
        ∧ sent w' = [QUpdate "passwords" sample_form "id" "7f3a"; list_request]
        ∧ passwords (st w') = [sample_password].
Proof.
  destruct (handleSubmit_update_success scripted sample_rand 3
              (sample_world (Some sample_password)
                 [success None; success (Some [sample_password])])
              sample_password (success None)
              [success (Some [sample_password])])
    as (w' & Hrun & Hediting & _ & _ & _ & _ & Hsent & Hlisted);
    [lia | reflexivity | reflexivity | reflexivity |].
  destruct (Hlisted (success (Some [sample_password])) [] eq_refl)
    as [Hpasswords _].
  exists w'. repeat split; assumption.
Defined.

Lemma deletePassword_failure_witness :
  ∃ w', dispatch scripted sample_rand 2 (λ _, deletePassword "7f3a")
          (sample_world None [failure]) = Some w'
        ∧ st w' = st (sample_world None [failure])
        ∧ sent w' = [QDelete "passwords" "id" "7f3a"].
Proof.
  destruct (deletePassword_failure scripted sample_rand 2
              (sample_world None [failure]) "7f3a" failure []
              (mkError "permission denied"))
    as (w' & Hrun & Hst & Hsent & _);
    [lia | reflexivity | reflexivity |].
  exists w'. repeat split; assumption.
Defined.

(** The delete succeeds but the refresh fails: the deleted record is still
    in [passwords]. *)
Lemma deletePassword_success_witness :
  ∃ w', dispatch scripted sample_rand 3 (λ _, deletePassword "7f3a")
          (sample_world None [success None; failure]) = Some w'
        ∧ sent w' = [QDelete "passwords" "id" "7f3a"; list_request]
        ∧ passwords (st w') = [sample_password].
Proof.
  destruct (deletePassword_success scripted sample_rand 3
              (sample_world None [success None; failure]) "7f3a"
              (success None) [failure])
    as (w' & Hrun & Hsent & Hlisted);
    [lia | reflexivity | reflexivity |].
  destruct (Hlisted failure [] eq_refl) as [Hst _].
  exists w'. split; [exact Hrun|]. split; [exact Hsent|].
  rewrite Hst. reflexivity.
Defined.

(** The sign-out request fails and [onSignOut] is called all the same. *)
Lemma handleSignOut_ignores_error_witness :
  ∃ w', dispatch scripted sample_rand 2 (λ _, handleSignOut)
          (sample_world None [failure]) = Some w'
        ∧ signedOut (outside w') = true
        ∧ toasts (outside w') = [].
Proof.
  destruct (handleSignOut_ignores_error scripted sample_rand 2
              (sample_world None [failure]))
    as (w' & Hrun & Hout & Htoasts & _); [lia|].
  exists w'. repeat split; assumption.
Defined.

Lemma copy_password_while_masked_witness :
  ∃ w', dispatch scripted sample_rand 1 (handler (EvCopyPassword sample_password))
          (sample_world None []) = Some w'
        ∧ clipboard (outside w') = Some "x"
        ∧ card_secret (card (st w') sample_password) = mask.
Proof.
  destruct (copy_password_while_masked scripted sample_rand 1
              (sample_world None []) sample_password)
    as (w' & Hrun & Hclip & _ & _ & Hcard & _); [lia|].
  exists w'. split; [exact Hrun|]. split; [exact Hclip|].
  rewrite Hcard. reflexivity.
Defined.

Lemma event_sends_at_most_two_requests_witness :
  ∃ w' new,
    dispatch scripted sample_rand 3 (handler EvSubmit)
      (sample_world None [success None; failure]) = Some w'
    ∧ sent w' = sent (sample_world None [success None; failure]) ++ new
    ∧ length new ≤ 2.
Proof.
  destruct (event_sends_at_most_two_requests scripted sample_rand 3 EvSubmit
              (sample_world None [success None; failure]))
    as (w' & new & Hrun & Hsent & Hnew); [lia|].
  exists w', new. split; [exact Hrun|]. split; [exact Hsent|].
  destruct Hnew as [-> | [-> | [-> | (m & _ & [-> | ->])]]]; cbn; lia.
Defined.

Lemma passwords_only_from_list_response_witness :
  ∃ w', dispatch scripted sample_rand 3 (handler (EvDelete sample_password))
          (sample_world None [success None; success (Some [])]) = Some w'.
Proof.
  destruct (passwords_only_from_list_response scripted sample_rand 3
              (EvDelete sample_password)
              (sample_world None [success None; success (Some [])]))
    as (w' & Hrun & _); [lia|].
  exists w'. exact Hrun.
Defined.

Lemma loading_never_returns_witness :
  ∃ w', run_events scripted sample_rand 3
          [EvMount; EvSubmit; EvToggle sample_password] (mounted [failure])
        = Some w'
        ∧ loading (st w') = false.
Proof.
  destruct (loading_never_returns scripted sample_rand 3
              [EvSubmit; EvToggle sample_password] (mounted [failure]))
    as [_ (w' & Hrun & Hload & _)]; [lia|].
  exists w'. split; assumption.
Defined.

(** The flag of a record survives its deletion and the refresh. *)
Lemma showPasswords_only_toggled_witness :
  ∃ w', run_events scripted sample_rand 3 [EvDelete sample_password; EvMount]
          (sample_world None [success None; success (Some [])]) = Some w'
        ∧ showPasswords (st w') = ∅.
Proof.
  destruct (showPasswords_only_toggled scripted sample_rand 3
              [EvDelete sample_password; EvMount]
              (sample_world None [success None; success (Some [])]))
    as (w' & Hrun & Hshow); [lia | repeat constructor; discriminate |].
  exists w'. split; assumption.
Defined.

Lemma edit_then_submit_witness :
  ∃ w' rest,
    run_events scripted sample_rand 3 [EvEdit sample_password; EvSubmit]
      (sample_world None [failure]) = Some w'
    ∧ sent w' =
        QUpdate "passwords"
          {| FormData.website := "example.com";
             FormData.username := "a@b.com";
             FormData.password := "x";
             FormData.notes := "" |}
          "id" "7f3a" :: rest.
Proof.
  destruct (edit_then_submit scripted sample_rand 3
              (sample_world None [failure]) sample_password)
    as (w' & rest & Hrun & Hsent & _); [lia|].
  exists w', rest. split; assumption.
Defined.

Lemma edit_cancel_keeps_form_witness :
  ∃ w' rest,
    run_events scripted sample_rand 3
      [EvEdit sample_password; EvCancel; EvSubmit]
      (sample_world None [failure]) = Some w'
    ∧ sent w' = QInsert "passwords" [form_of sample_password] :: rest.
Proof.
  destruct (edit_cancel_keeps_form scripted sample_rand 3
              (sample_world None [failure]) sample_password)
    as [_ (w' & rest & Hrun & Hsent & _)]; [lia|].
  exists w', rest. split; assumption.
Defined.

Lemma typed_form_is_payload_witness :
  ∃ w' rest,
    run_events scripted sample_rand 3
      [EvWebsiteChange "a.org"; EvUsernameChange "me";
       EvPasswordChange "pw"; EvNotesChange ""; EvSubmit]
      (sample_world None [success None; success (Some [])]) = Some w'
    ∧ sent w' =
        QInsert "passwords"
          [{| FormData.website := "a.org"; FormData.username := "me";
              FormData.password := "pw"; FormData.notes := "" |}] :: rest
    ∧ formData (st w') = FormData.empty.
Proof.
  destruct (typed_form_is_payload scripted sample_rand 3
              (sample_world None [success None; success (Some [])])
              "a.org" "me" "pw" "")
    as (w' & rest & Hrun & Hsent & _ & Hform); [lia|].
  exists w', rest. repeat split; assumption.
Defined.

Lemma generatePassword_again_witness :
  ∃ w', run_events scripted sample_rand 1 [EvGenerate; EvGenerate]
          (mounted []) = Some w'
        ∧ draws w' = 32
        ∧ String.length (FormData.password (formData (st w'))) = 16.
Proof.
  destruct (generatePassword_again scripted sample_rand 1 (mounted []))
    as (w' & Hrun & Hdraws & Hlen & _); [lia | exact sample_rand_unit |].
  exists w'. repeat split; assumption.
Defined.

Lemma failed_load_renders_empty_vault_witness :
  ∃ w', dispatch scripted sample_rand 2 (handler EvMount) (mounted [failure])
        = Some w'
        ∧ render (st w') = VaultScreen false EmptyCard false FormData.empty.
Proof.
  destruct (failed_load_renders_empty_vault scripted sample_rand 2
              [failure] failure [])
    as (w' & Hrun & Hrender & _);
    [lia | reflexivity | left; eexists; reflexivity |].
  exists w'. split; assumption.
Defined.

(** The listing holds a record whose id is ["constructor"]: its card shows
    the password; the card of the other record is masked. *)
Lemma first_load_secret_lines_witness :
  ∃ w' cards,
    dispatch scripted sample_rand 2 (handler EvMount)
      (mounted [success (Some [sample_password; constructor_record])])
    = Some w'
    ∧ render (st w') = VaultScreen false (CardGrid cards) false FormData.empty
    ∧ card_secret <$> cards = [mask; "s3cret"].
Proof.
  destruct (first_load_secret_lines scripted sample_rand 2
              [success (Some [sample_password; constructor_record])]
              (success (Some [sample_password; constructor_record])) []
              sample_password [constructor_record])
    as (w' & cards & Hrun & Hrender & _ & Hsecrets & _);
    [lia | reflexivity | reflexivity | reflexivity |].
  exists w', cards. repeat split; assumption.
Defined.

Lemma toggle_flips_card_secret_witness :
  ∃ w', dispatch scripted sample_rand 1 (handler (EvToggle sample_password))
          (sample_world None []) = Some w'
        ∧ card_secret (card (st w') sample_password) = "x".
Proof.
  destruct (toggle_flips_card_secret scripted sample_rand 1
              (sample_world None []) sample_password)
    as (w' & Hrun & Hsecret & _); [lia|].
  exists w'. split; assumption.
Defined.
